(** * Matching and ranking engine of the doa/hadis chatbot (src/doa.py)

    A shallow embedding of the request pipeline of [doa.py]: text
    normalisation, keyword extraction, match scoring, intent detection,
    corpus search, deduplication, response composition and the [/chat]
    handler, followed by the properties proved about them.

    Modelling conventions.
    - A Python [str] is a [string] of 8-bit characters.  The text functions
      are exact on ASCII text; a code point outside ASCII is carried as its
      UTF-8 bytes, is lowercased to itself and is never whitespace, which is
      not what Python does for every such code point (U+00A0 is whitespace,
      U+212A lowers to k).  A statement that depends on how a query is
      normalised or tokenised is therefore made for ASCII queries
      ([is_ascii]).
    - A Python [set] of strings is a [gset string]; a [for] loop over a set
      visits [elements] of it.  Python's visiting order is unspecified, and
      the results below do not depend on it.
    - A Python [float] score is an exact rational ([Q]); binary rounding
      error of the float additions is not modelled.  The builtin
      [round(x, 3)] gives a thousandth nearest to [x].  Where the exact
      total lies half way between two thousandths the builtin rounds the
      double that was computed, to either neighbour; [round3] then takes
      the even one.  The scorer is therefore also given with the builtin
      as a parameter ([calculate_match_score_with]), and what is stated of
      the rounded value is stated for every rounding to a nearest
      thousandth ([rounds_to_thousandths]).
    - The request carries a string under [query], the corpora are JSON
      arrays of objects with string fields, and the rule table is a JSON
      object.  A request without a string query, a field that is [null],
      and a rule table that failed to load are outside the model.
    - The Sastrawi stemmer is an external collaborator: a section variable
      [stem : string -> string].
    - A corpus item is a JSON object; a key that is absent is [None].
      [d[k]] on an absent key raises [KeyError], [d.get(k, default)] does
      not.  Exceptions are values of an error monad. *)

From Stdlib Require Import Ascii QArith Qminmax.
From stdpp Require Import base strings list gmap sets sorting pretty.

(** ** Characters and strings as Python uses them *)

Definition code (c : ascii) : nat := nat_of_ascii c.

(** [str.isspace] and the regex class [\s], on ASCII. *)
Definition isspace (c : ascii) : bool :=
  ((9 <=? code c) && (code c <=? 13)) || ((28 <=? code c) && (code c <=? 32)).

Definition isupper (c : ascii) : bool := (65 <=? code c) && (code c <=? 90).

(** The regex class [[a-z0-9]]. *)
Definition is_lower_alnum (c : ascii) : bool :=
  ((97 <=? code c) && (code c <=? 122)) || ((48 <=? code c) && (code c <=? 57)).

Definition lower_char (c : ascii) : ascii :=
  if isupper c then ascii_of_nat (code c + 32) else c.

Fixpoint map_string (f : ascii -> ascii) (s : string) : string :=
  match s with
  | EmptyString => EmptyString
  | String c s' => String (f c) (map_string f s')
  end.

Fixpoint filter_string (p : ascii -> bool) (s : string) : string :=
  match s with
  | EmptyString => EmptyString
  | String c s' => if p c then String c (filter_string p s') else filter_string p s'
  end.

(** [text.lower()], on ASCII. *)
Definition lower (s : string) : string := map_string lower_char s.

Fixpoint lstrip (s : string) : string :=
  match s with
  | EmptyString => EmptyString
  | String c s' => if isspace c then lstrip s' else s
  end.

Definition rstrip (s : string) : string := String.rev (lstrip (String.rev s)).

(** [text.strip()] *)
Definition strip (s : string) : string := rstrip (lstrip s).

(** [re.sub(r"\s+", " ", s)]: [in_run] tells that the previous character
    was whitespace, so that a run is replaced once. *)
Fixpoint collapse_spaces (in_run : bool) (s : string) : string :=
  match s with
  | EmptyString => EmptyString
  | String c s' =>
      if isspace c
      then if in_run then collapse_spaces true s'
           else String " "%char (collapse_spaces true s')
      else String c (collapse_spaces false s')
  end.

(** [text.split()]: maximal runs of non-whitespace characters. [cur] is the
    token being read. *)
Fixpoint split_from (cur : string) (s : string) : list string :=
  match s with
  | EmptyString => match cur with EmptyString => [] | _ => [cur] end
  | String c s' =>
      if isspace c
      then match cur with
           | EmptyString => split_from EmptyString s'
           | _ => cur :: split_from EmptyString s'
           end
      else split_from (cur +:+ String c EmptyString) s'
  end.

Definition split (s : string) : list string := split_from EmptyString s.

(** [" ".join(l)] *)
Definition join (l : list string) : string := String.concat " " l.

(** [needle in hay] on strings. *)
Fixpoint contains (needle hay : string) : bool :=
  String.prefix needle hay ||
  match hay with
  | EmptyString => false
  | String _ hay' => contains needle hay'
  end.

(** ** Scores *)

Definition Q_of_nat (n : nat) : Q := inject_Z (Z.of_nat n).

(** Nearest integer to a rational, ties to even. *)
Definition round_half_even (x : Q) : Z :=
  let n := Qnum x in
  let d := Zpos (Qden x) in
  let q := (n / d)%Z in
  let r := (n mod d)%Z in
  match (2 * r ?= d)%Z with
  | Lt => q
  | Gt => (q + 1)%Z
  | Eq => if Z.even q then q else (q + 1)%Z
  end.

(** [round(x, 3)] *)
Definition round3 (x : Q) : Q := (round_half_even (x * 1000) # 1000)%Q.

(** ** Stopwords *)

Definition STOPWORDS : gset string :=
  list_to_set
    ["yang"; "untuk"; "pada"; "adalah"; "dari"; "di"; "ke"; "dalam";
     "dengan"; "oleh"; "ini"; "itu"; "dan"; "atau"; "akan"; "ada";
     "bisa"; "dapat"; "juga"; "lebih"; "saat"; "ketika"; "tentang";
     "apa"; "siapa"; "mana"; "bagaimana"; "kenapa"; "kapan"; "dimana"].

(** ** NLP functions *)

(** [normalize]: lowercase, trim, collapse whitespace runs. *)
Definition normalize (text : string) : string :=
  collapse_spaces false (strip (lower text)).

(** ** Corpus items, results and exceptions *)

(** An identifier as JSON gives it: a string or an integer. *)
Inductive ident :=
| IdStr (s : string)
| IdNum (n : Z).

#[global] Instance ident_eq_dec : EqDecision ident.
Proof. solve_decision. Defined.

#[global] Instance ident_countable : Countable ident.
Proof.
  refine (inj_countable'
            (fun i => match i with IdStr s => inl s | IdNum n => inr n end)
            (fun x => match x with inl s => IdStr s | inr n => IdNum n end) _).
  intros []; reflexivity.
Defined.

(** Python truth value of an identifier: [""] and [0] are false. *)
Definition truthy (i : ident) : bool :=
  match i with
  | IdStr s => negb (String.eqb s "")
  | IdNum n => negb (n =? 0)%Z
  end.

(** A doa or hadis object of the datasets, with the keys the engine reads.
    [None] is an absent key.  [source_type] is absent in the datasets and
    set by the searches. *)
Record item := {
  id : option ident;
  judul : option string;
  tema : option string;
  arti : option string;
  latin : option string;
  kata_kunci : option (list string);
  source_type : option string
}.

(** [{**d, "source_type": tag}] *)
Definition with_source_type (d : item) (tag : string) : item :=
  {| id := id d; judul := judul d; tema := tema d; arti := arti d;
     latin := latin d; kata_kunci := kata_kunci d; source_type := Some tag |}.

(** [{"score": ..., "data": ...}] *)
Record result := { score : Q; data : item }.

(** An entry of [INTENTS]. *)
Record intent_data := {
  keywords : list string;
  type : string;
  canonical_query : string
}.

(** The dict built by [detect_intent]. *)
Record intent_match := {
  intent_name : string;
  intent_type : string;
  intent_canonical_query : string;
  intent_score : Q;
  matched_keywords : list string
}.

Inductive exn :=
| KeyError (key : string).

(** A computation that returns or raises. *)
Inductive res (A : Type) :=
| Return (a : A)
| Raise (e : exn).
Arguments Return {A} a.
Arguments Raise {A} e.

#[global] Instance res_ret : MRet res := fun A a => Return a.
#[global] Instance res_bind : MBind res := fun A B f m =>
  match m with
  | Return a => f a
  | Raise e => Raise e
  end.

(** [d[key]] *)
Definition getitem (field : item -> option string) (key : string) (d : item) : res string :=
  match field d with
  | Some v => Return v
  | None => Raise (KeyError key)
  end.

(** ** Comparisons, sorting and slicing *)

Definition Qltb (x y : Q) : bool := (Qnum x * QDen y <? Qnum y * QDen x)%Z.

(** Insertion into a list sorted by non-increasing score: the new result
    goes before the first one whose score is not greater. *)
Fixpoint insert_desc (r : result) (l : list result) : list result :=
  match l with
  | [] => [r]
  | r' :: l' => if Qltb (score r) (score r') then r' :: insert_desc r l' else r :: l
  end.

(** [sorted(results, key=lambda x: x["score"], reverse=True)]: the stable
    sort by non-increasing score. *)
Fixpoint sorted_desc (results : list result) : list result :=
  match results with
  | [] => []
  | r :: rest => insert_desc r (sorted_desc rest)
  end.

(** [l[:k]], also for a negative [k]. *)
Definition slice_to {A : Type} (k : Z) (l : list A) : list A :=
  if (k <? 0)%Z then take (length l - Z.to_nat (- k)) l else take (Z.to_nat k) l.

(** ** Response payloads *)

Record summary := {
  total : nat;
  doa_count : nat;
  hadis_count : nat;
  showing : nat
}.

Inductive payload :=
| ASK (message : string) (suggestions : option (list string)) (examples : list string)
| OK (message : string) (results : list result) (counts : summary)
| ERROR (message : string).

(** The clock and the timezone service, as [get_time_based_greeting] sees
    them: the timezone the service answers for a position ([None] when the
    request fails or is not answered with 200), and the local hour in a
    timezone ([None] when the timezone is not known). *)
Record world := {
  fetch_timezone : string -> string -> option string;
  local_hour : string -> option Z
}.

Definition nl : string := String (ascii_of_nat 10) EmptyString.

Section Engine.

(** The stemmer ([stemmer.stem]). *)
Variable stem : string -> string.

(** The datasets and the intent table, in load order. *)
Variable DOA_DATA : list item.
Variable HADIS_DATA : list item.
Variable INTENTS : list (string * intent_data).

Definition preprocess (text : string) : string :=
  let text := filter_string (fun c => is_lower_alnum c || isspace c) (lower text) in
  stem text.

Definition get_keywords (text : string) : list string :=
  let words := split (preprocess text) in
  filter (fun w => 1 < String.length w ∧ w ∉ STOPWORDS) words.

(** ** Smart matching *)

(** Line 87 and 91: [overlap / len(query_set)]. *)
Definition base_score (query_set target_words : gset string) : Q :=
  (Q_of_nat (size (query_set ∩ target_words)) / Q_of_nat (size query_set))%Q.

(** Lines 96-98: the union of the keywords of every phrase. *)
Definition collect_target_kw (target_keywords : list string) : gset string :=
  fold_left (fun target_kw_set kw => target_kw_set ∪ list_to_set (get_keywords kw))
            target_keywords ∅.

(** Lines 94-101. [if target_keywords:] is false for [None] and for []. *)
Definition keyword_bonus (query_set : gset string)
    (target_keywords : option (list string)) : Q :=
  match target_keywords with
  | None | Some [] => 0%Q
  | Some kws => (Q_of_nat (size (query_set ∩ collect_target_kw kws)) * (2 # 10))%Q
  end.

(** Lines 104-107. *)
Definition phrase_bonus (query_keywords : list string) (target_text : string) : Q :=
  if contains (join query_keywords) (preprocess target_text) then (3 # 10)%Q else 0%Q.

(** Lines 112-116: the inner loop for one query word; the [break] leaves
    the loop with the bonus incremented once. *)
Fixpoint scan_target_words (qw : string) (tws : list string) (partial_bonus : Q) : Q :=
  match tws with
  | [] => partial_bonus
  | tw :: tws' =>
      if (4 <=? String.length qw)%nat && (4 <=? String.length tw)%nat
      then if contains qw tw || contains tw qw
           then (partial_bonus + (1 # 10))%Q
           else scan_target_words qw tws' partial_bonus
      else scan_target_words qw tws' partial_bonus
  end.

(** Lines 110-116: the outer loop. *)
Definition partial_bonus_loop (qws tws : list string) : Q :=
  fold_left (fun partial_bonus qw => scan_target_words qw tws partial_bonus) qws 0%Q.

Definition partial_bonus (query_set target_words : gset string) : Q :=
  partial_bonus_loop (elements query_set) (elements target_words).

Definition calculate_match_score (query_keywords : list string)
    (target_text : string) (target_keywords : option (list string)) : Q :=
  let target_words : gset string := list_to_set (split (preprocess target_text)) in
  let query_set : gset string := list_to_set query_keywords in
  if decide (size query_set = 0%nat) then 0%Q
  else
    let total_score :=
      Qmin (base_score query_set target_words
            + keyword_bonus query_set target_keywords
            + phrase_bonus query_keywords target_text
            + partial_bonus query_set target_words)%Q 1%Q in
    round3 total_score.

(** Lines 75-119 again, with the builtin of line 119 as a parameter:
    [round_to_3 x] is what [round(x, 3)] returns. *)
Definition calculate_match_score_with (round_to_3 : Q -> Q)
    (query_keywords : list string) (target_text : string)
    (target_keywords : option (list string)) : Q :=
  let target_words : gset string := list_to_set (split (preprocess target_text)) in
  let query_set : gset string := list_to_set query_keywords in
  if decide (size query_set = 0%nat) then 0%Q
  else
    let total_score :=
      Qmin (base_score query_set target_words
            + keyword_bonus query_set target_keywords
            + phrase_bonus query_keywords target_text
            + partial_bonus query_set target_words)%Q 1%Q in
    round_to_3 total_score.

(** ** Intent detection *)

(** Lines 137-147: one trigger keyword of a rule. *)
Definition rule_step (query_lower : string) (query_keywords : gset string)
    (st : Q * list string) (keyword : string) : Q * list string :=
  let '(score, matched_kws) := st in
  let kw_lower := lower keyword in
  if contains kw_lower query_lower
  then ((score + 1)%Q, matched_kws ++ [keyword])
  else if existsb (fun kw_word => bool_decide (kw_word ∈ query_keywords))
                  (get_keywords keyword)
  then ((score + (1 # 2))%Q, matched_kws ++ [keyword])
  else st.

(** Lines 134-147: the score and the matched triggers of one rule. *)
Definition rule_score (query_lower : string) (query_keywords : gset string)
    (intent : intent_data) : Q * list string :=
  fold_left (rule_step query_lower query_keywords) (keywords intent) (0%Q, []).

(** Lines 133-157: one rule of the table; the state is
    [(best_intent, best_score)]. *)
Definition intent_step (query_lower : string) (query_keywords : gset string)
    (st : option intent_match * Q) (entry : string * intent_data)
    : option intent_match * Q :=
  let '(best_intent, best_score) := st in
  let '(name, intent) := entry in
  let '(score, matched_kws) := rule_score query_lower query_keywords intent in
  if Qltb best_score score
  then (Some {| intent_name := name;
                intent_type := type intent;
                intent_canonical_query := canonical_query intent;
                intent_score := score;
                matched_keywords := matched_kws |}, score)
  else (best_intent, best_score).

Definition detect_intent (query : string) : option intent_match :=
  let query_lower := lower query in
  let query_keywords : gset string := list_to_set (get_keywords query) in
  let '(best_intent, best_score) :=
    fold_left (intent_step query_lower query_keywords) INTENTS (None, 0%Q) in
  if negb (Qltb best_score (1 # 2)) then best_intent else None.

(** ** Search functions *)

Fixpoint search_doa_loop (query_keywords : list string) (dataset : list item)
    (results : list result) : res (list result) :=
  match dataset with
  | [] => Return results
  | doa :: rest =>
      j ← getitem judul "judul" doa;
      a ← getitem arti "arti" doa;
      let searchable := j +:+ " " +:+ a +:+ " " +:+ default "" (latin doa) in
      let score := calculate_match_score query_keywords searchable None in
      if Qltb (1 # 10) score
      then search_doa_loop query_keywords rest
             (results ++ [{| score := score; data := with_source_type doa "doa" |}])
      else search_doa_loop query_keywords rest results
  end.

Definition search_doa (query_keywords : list string) (top_k : Z) : res (list result) :=
  results ← search_doa_loop query_keywords DOA_DATA [];
  Return (slice_to top_k (sorted_desc results)).

Fixpoint search_hadis_loop (query_keywords : list string) (dataset : list item)
    (results : list result) : res (list result) :=
  match dataset with
  | [] => Return results
  | hadis :: rest =>
      t ← getitem tema "tema" hadis;
      a ← getitem arti "arti" hadis;
      let searchable := t +:+ " " +:+ a in
      let kata_kunci := default [] (kata_kunci hadis) in
      let score := calculate_match_score query_keywords searchable (Some kata_kunci) in
      if Qltb (1 # 10) score
      then search_hadis_loop query_keywords rest
             (results ++ [{| score := score; data := with_source_type hadis "hadis" |}])
      else search_hadis_loop query_keywords rest results
  end.

Definition search_hadis (query_keywords : list string) (top_k : Z) : res (list result) :=
  results ← search_hadis_loop query_keywords HADIS_DATA [];
  Return (slice_to top_k (sorted_desc results)).

(** ** Deduplication *)

(** Lines 208-212; the state is [(seen_ids, unique)]. *)
Fixpoint dedup_loop (results : list result) (seen_ids : gset ident)
    (unique : list result) : list result :=
  match results with
  | [] => unique
  | result :: rest =>
      match id (data result) with
      | Some item_id =>
          if truthy item_id && bool_decide (item_id ∉ seen_ids)
          then dedup_loop rest ({[item_id]} ∪ seen_ids) (unique ++ [result])
          else dedup_loop rest seen_ids unique
      | None => dedup_loop rest seen_ids unique
      end
  end.

Definition deduplicate_by_id (results : list result) : list result :=
  dedup_loop results ∅ [].

(** ** Response formatting *)

Definition has_source (tag : string) (r : result) : bool :=
  bool_decide (source_type (data r) = Some tag).

(** Lines 244-252. *)
Definition found_message (intent : option intent_match) (doa_count hadis_count : nat)
    : string :=
  match intent with
  | Some i => "‚ú® Ditemukan untuk '" +:+ intent_name i +:+ "'"
  | None =>
      if negb (doa_count =? 0) && negb (hadis_count =? 0)
      then "‚ú® Ditemukan " +:+ pretty doa_count +:+ " doa dan "
           +:+ pretty hadis_count +:+ " hadis"
      else if negb (doa_count =? 0)
      then "‚ú® Ditemukan " +:+ pretty doa_count +:+ " doa"
      else "‚ú® Ditemukan " +:+ pretty hadis_count +:+ " hadis"
  end.

(** Line 256: the note appended when more than three results were found. *)
Definition top3_note (total : nat) : string :=
  " (menampilkan 3 teratas dari " +:+ pretty total +:+ " hasil)".

Definition format_response (results : list result) (query : string)
    (intent : option intent_match) : payload :=
  match results with
  | [] =>
      ASK ("Maaf, belum menemukan hasil yang sesuai üòî" +:+ nl +:+ nl
           +:+ "Coba dengan kata kunci lain ya!")
          (Some ["Gunakan kata kunci lebih spesifik";
                 "Contoh: 'doa sebelum makan', 'hadis tentang sabar'"])
          ["doa keluar rumah"; "hadis tentang ilmu"; "doa untuk orang sakit"]
  | _ =>
      let doa_results := List.filter (has_source "doa") results in
      let hadis_results := List.filter (has_source "hadis") results in
      let total := length results in
      let doa_count := length doa_results in
      let hadis_count := length hadis_results in
      let message := found_message intent doa_count hadis_count in
      let message := if 3 <? total then message +:+ top3_note total else message in
      OK message (take 3 results)
         {| total := total; doa_count := doa_count; hadis_count := hadis_count;
            showing := Nat.min 3 total |}
  end.

(** ** Time-based greeting *)

Definition get_time_based_greeting (w : world) (lat lng : option string) : string :=
  let timezone_name :=
    match lat, lng with
    | Some la, Some ln => default "Asia/Jakarta" (fetch_timezone w la ln)
    | _, _ => "Asia/Jakarta"
    end in
  match local_hour w timezone_name with
  | Some current_hour =>
      if (5 <=? current_hour)%Z && (current_hour <? 11)%Z then "Selamat pagi"
      else if (11 <=? current_hour)%Z && (current_hour <? 15)%Z then "Selamat siang"
      else if (15 <=? current_hour)%Z && (current_hour <? 18)%Z then "Selamat sore"
      else "Selamat malam"
  | None => "Selamat datang"
  end.

(** ** The [/chat] handler *)

Definition greetings : list string :=
  ["halo"; "hai"; "mulai"; "assalamualaikum"; "salam"; "test"; "tes"].

(** Line 359: the test for a strong intent. *)
Definition strong_intent (intent : option intent_match) : bool :=
  match intent with
  | Some i => negb (Qltb (intent_score i) 1)
  | None => false
  end.

(** Lines 356-371: the intent-based search. *)
Definition intent_search (intent : option intent_match) (query_keywords : list string)
    : res (list result) :=
  match intent with
  | Some i =>
      if strong_intent intent then
        let canonical_keywords := get_keywords (intent_canonical_query i) in
        if String.eqb (intent_type i) "doa" then
          results ← search_doa canonical_keywords 10;
          if length results <? 3
          then more ← search_hadis query_keywords 10; Return (results ++ more)
          else Return results
        else
          results ← search_hadis canonical_keywords 10;
          if length results <? 3
          then more ← search_doa query_keywords 10; Return (results ++ more)
          else Return results
      else Return []
  | None => Return []
  end.

(** Lines 373-377: the general search, when fewer than two results. *)
Definition general_search (results : list result) (query_keywords : list string)
    : res (list result) :=
  if length results <? 2 then
    doa_results ← search_doa query_keywords 10;
    hadis_results ← search_hadis query_keywords 10;
    Return (doa_results ++ hadis_results)
  else Return results.

(** Lines 353-383, inside the [try]. *)
Definition search_and_respond (query : string) (query_keywords : list string)
    : res payload :=
  let intent := detect_intent query in
  results ← intent_search intent query_keywords;
  results ← general_search results query_keywords;
  let results := deduplicate_by_id results in
  let results := sorted_desc results in
  Return (format_response results query intent).

(** [chat]: [raw_query] is [data.get("query", "")]; an exception is caught
    and answered with the [ERROR] payload (status 500). *)
Definition chat (w : world) (raw_query : string) (lat lng : option string) : payload :=
  let query := normalize raw_query in
  if String.eqb query "" then
    ASK "Silakan ketik kebutuhan doa atau hadis üòä" None
        ["doa sebelum makan"; "hadis tentang sabar"; "doa naik kendaraan"]
  else if bool_decide (query ∈ greetings) then
    let time_greeting := get_time_based_greeting w lat lng in
    let salam :=
      if bool_decide (query ∈ ["assalamualaikum"; "salam"])
      then "Wa'alaikumsalam" else "Halo" in
    ASK (salam +:+ ", " +:+ time_greeting +:+ " üòä" +:+ nl +:+ nl
         +:+ "Saya Asisten Islami. Silakan tanyakan doa atau hadis yang kamu butuhkan!")
        None
        ["doa keluar rumah"; "hadis tentang ilmu"; "doa ketika sakit"]
  else
    let query_keywords := get_keywords query in
    match query_keywords with
    | [] =>
        ASK "Kata kunci terlalu umum. Coba lebih spesifik ya! üòä" None
            ["doa sebelum tidur"; "hadis tentang akhlak"; "doa memohon rezeki"]
    | _ =>
        match search_and_respond query query_keywords with
        | Return response => response
        | Raise _ => ERROR "Maaf, terjadi kesalahan server üòî"
        end
    end.

End Engine.

(** ** Vocabulary of the statements *)

(** A stemmer that returns its input, as the dictionary stemmer does on
    lowercase text made of root words. *)
Definition root_stem (text : string) : string := text.

(** [qw] and [tw] match partially: both have four characters or more and
    one occurs in the other. *)
Definition partial_match (qw tw : string) : Prop :=
  4 ≤ String.length qw ∧ 4 ≤ String.length tw ∧
  (contains qw tw = true ∨ contains tw qw = true).

#[global] Instance partial_match_dec qw tw : Decision (partial_match qw tw).
Proof. unfold partial_match. apply _. Defined.

(** A query keyword qualifies for the partial bonus when some target word
    matches it partially. *)
Definition qualifying (target_words : gset string) (qw : string) : Prop :=
  set_Exists (partial_match qw) target_words.

#[global] Instance qualifying_dec target_words qw : Decision (qualifying target_words qw).
Proof. unfold qualifying. apply _. Defined.

(** The results of a list have non-increasing scores from first to last. *)
Definition non_increasing (rs : list result) : Prop :=
  ∀ i j r r', i < j → rs !! i = Some r → rs !! j = Some r' → (score r' <= score r)%Q.

(** The results whose score is [s]. *)
Definition has_score (s : Q) (r : result) : Prop := (score r == s)%Q.

#[global] Instance has_score_dec s r : Decision (has_score s r).
Proof. unfold has_score. destruct (Qeq_dec (score r) s); [left | right]; assumption. Defined.

Definition above_threshold (r : result) : Prop := (1 # 10 < score r)%Q.

#[global] Instance above_threshold_dec r : Decision (above_threshold r).
Proof.
  unfold above_threshold. destruct (Qlt_le_dec (1 # 10) (score r)); [left | right].
  - assumption.
  - by apply Qle_not_lt.
Defined.

(** The text [search_doa] scores for an item that has its fields. *)
Definition doa_searchable (doa : item) : string :=
  default "" (judul doa) +:+ " " +:+ default "" (arti doa) +:+ " "
  +:+ default "" (latin doa).

Definition hadis_searchable (hadis : item) : string :=
  default "" (tema hadis) +:+ " " +:+ default "" (arti hadis).

(** The scored entry of a corpus item, whether it passes the threshold
    or not. *)
Definition doa_result (stem : string -> string) (query_keywords : list string)
    (doa : item) : result :=
  {| score := calculate_match_score stem query_keywords (doa_searchable doa) None;
     data := with_source_type doa "doa" |}.

Definition hadis_result (stem : string -> string) (query_keywords : list string)
    (hadis : item) : result :=
  {| score := calculate_match_score stem query_keywords (hadis_searchable hadis)
                (Some (default [] (kata_kunci hadis)));
     data := with_source_type hadis "hadis" |}.

(** The items that carry the fields the searches index. *)
Definition complete_doa (d : item) : Prop := is_Some (judul d) ∧ is_Some (arti d).
Definition complete_hadis (d : item) : Prop := is_Some (tema d) ∧ is_Some (arti d).

(** [rs] is a ranked answer of at most [top_k] results for a corpus whose
    scored entries, in corpus order, are [scored]: at most [top_k] results, all
    above the threshold, in non-increasing order, taken from the corpus;
    the results of one score are the first corpus entries of that score,
    in corpus order; two results of equal score stand as their entries
    stand in the corpus. *)
Definition ranked_top_k (top_k : Z) (scored rs : list result) : Prop :=
  (Z.of_nat (length rs) ≤ top_k)%Z ∧
  Forall above_threshold rs ∧
  non_increasing rs ∧
  (∀ r, r ∈ rs → r ∈ scored) ∧
  (∀ s, filter (has_score s) rs `prefix_of` filter (has_score s) scored) ∧
  (∀ p q r r', p < q → rs !! p = Some r → rs !! q = Some r' →
     (score r == score r')%Q →
     ∃ a b, a < b ∧ scored !! a = Some r ∧ scored !! b = Some r').

(** ** Sample data *)

Definition doa_item (i j a : string) : item :=
  {| id := Some (IdStr i); judul := Some j; tema := None; arti := Some a;
     latin := None; kata_kunci := None; source_type := None |}.

Definition hadis_item (i t a : string) (kws : list string) : item :=
  {| id := Some (IdStr i); judul := None; tema := Some t; arti := Some a;
     latin := None; kata_kunci := Some kws; source_type := None |}.

Definition sample_doa : list item :=
  [doa_item "d1" "Doa Sebelum Makan" "berkah rezeki";
   doa_item "d2" "Doa Sesudah Makan" "puji syukur";
   doa_item "d3" "Doa Sebelum Tidur" "hidup mati"].

Definition sample_hadis : list item :=
  [hadis_item "h1" "Adab Makan" "makan tangan kanan" ["adab makan"];
   hadis_item "h2" "Sabar" "sabar separuh iman" ["sabar"; "iman"]].

(** [r] is the first result of [merged] that carries its identifier, and
    the identifier is not empty. *)
Definition first_occurrence (merged : list result) (r : result) : Prop :=
  ∃ i pre post,
    merged = pre ++ r :: post ∧ id (data r) = Some i ∧ truthy i = true ∧
    Forall (fun r' => id (data r') ≠ Some i) pre.

(** The results that [dedup_loop] appends to [unique], given [seen_ids]. *)
Fixpoint dedup_from (seen_ids : gset ident) (results : list result) : list result :=
  match results with
  | [] => []
  | result :: rest =>
      match id (data result) with
      | Some item_id =>
          if truthy item_id && bool_decide (item_id ∉ seen_ids)
          then result :: dedup_from ({[item_id]} ∪ seen_ids) rest
          else dedup_from seen_ids rest
      | None => dedup_from seen_ids rest
      end
  end.

Definition scored (s : Q) (i : string) (tag : string) : result :=
  {| score := s;
     data := {| id := Some (IdStr i); judul := None; tema := None; arti := None;
                latin := None; kata_kunci := None; source_type := Some tag |} |}.

(** The accumulated trigger score of a rule for a query. *)
Definition trigger_score (stem : string -> string) (query : string)
    (intent : intent_data) : Q :=
  (rule_score stem (lower query) (list_to_set (get_keywords stem query)) intent).1.

(** The state of the loop of [detect_intent] after the rules [seen]. *)
Definition best_so_far (score_of : intent_data → Q) (seen : list (string * intent_data))
    (st : option intent_match * Q) : Prop :=
  (0 <= st.2)%Q ∧
  (∀ j e, seen !! j = Some e → (score_of e.2 <= st.2)%Q) ∧
  match st.1 with
  | None => st.2 = 0%Q
  | Some m =>
      intent_score m = st.2 ∧ (0 < st.2)%Q ∧
      ∃ k intent,
        seen !! k = Some (intent_name m, intent) ∧
        intent_type m = type intent ∧
        intent_canonical_query m = canonical_query intent ∧
        intent_score m = score_of intent ∧
        ∀ j e, j < k → seen !! j = Some e → (score_of e.2 < intent_score m)%Q
  end.

Definition sample_intents : list (string * intent_data) :=
  [("makan", {| keywords := ["makan"; "sebelum makan"]; type := "doa";
                canonical_query := "doa sebelum makan" |});
   ("sabar", {| keywords := ["sabar"; "kesabaran"]; type := "hadis";
                canonical_query := "hadis tentang sabar" |})].

(** Two states of the clock: ten in the morning and noon, with no answer
    from the timezone service. *)
Definition morning : world :=
  {| fetch_timezone := fun _ _ => None; local_hour := fun _ => Some 10%Z |}.

Definition noon : world :=
  {| fetch_timezone := fun _ _ => None; local_hour := fun _ => Some 12%Z |}.

(** A doa without its [judul] key, and one without its [id] key. *)
Definition doa_without_judul : item :=
  {| id := Some (IdStr "d9"); judul := None; tema := None; arti := Some "makan enak";
     latin := None; kata_kunci := None; source_type := None |}.

Definition doa_without_id : item :=
  {| id := None; judul := Some "Doa Makan"; tema := None; arti := Some "makan enak";
     latin := None; kata_kunci := None; source_type := None |}.

(** The result carries a non-empty identifier. *)
Definition has_id (r : result) : Prop :=
  ∃ i, id (data r) = Some i ∧ truthy i = true.

(** A keyword: longer than one character and not a stopword. *)
Definition is_keyword (w : string) : Prop := 1 < String.length w ∧ w ∉ STOPWORDS.

(** [r] does not score below [r']. *)
Definition score_ge (r r' : result) : Prop := (score r' <= score r)%Q.

Definition sample_results : list result :=
  [scored 1 "d1" "doa"; scored 0.8 "h1" "hadis"; scored 0.5 "d2" "doa";
   scored 0.3 "d3" "doa"].

(** ** Vocabulary of the further properties *)

(** A trigger phrase occurs in the lowercased query. *)
Definition exact_trigger (query_lower keyword : string) : Prop :=
  contains (lower keyword) query_lower = true.

(** A trigger phrase does not occur in the query, but one of its keywords
    is a keyword of the query. *)
Definition stem_trigger (stem : string -> string) (query_lower : string)
    (query_keywords : gset string) (keyword : string) : Prop :=
  ¬ exact_trigger query_lower keyword ∧
  Exists (fun kw_word => kw_word ∈ query_keywords) (get_keywords stem keyword).

Definition matched_trigger (stem : string -> string) (query_lower : string)
    (query_keywords : gset string) (keyword : string) : Prop :=
  exact_trigger query_lower keyword ∨ stem_trigger stem query_lower query_keywords keyword.

#[global] Instance exact_trigger_dec ql kw : Decision (exact_trigger ql kw).
Proof. unfold exact_trigger. apply _. Defined.

#[global] Instance stem_trigger_dec stem ql qk kw : Decision (stem_trigger stem ql qk kw).
Proof. unfold stem_trigger. apply _. Defined.

#[global] Instance matched_trigger_dec stem ql qk kw :
  Decision (matched_trigger stem ql qk kw).
Proof. unfold matched_trigger. apply _. Defined.

(** The best intent of the loop of [detect_intent] is built from a rule of
    the rules seen. *)
Definition best_from_table (stem : string -> string) (query : string)
    (seen : list (string * intent_data)) (st : option intent_match * Q) : Prop :=
  match st.1 with
  | None => True
  | Some m =>
      intent_score m = st.2 ∧
      ∃ rule,
        (intent_name m, rule) ∈ seen ∧
        intent_type m = type rule ∧
        intent_canonical_query m = canonical_query rule ∧
        rule_score stem (lower query) (list_to_set (get_keywords stem query)) rule
        = (intent_score m, matched_keywords m)
  end.

(** [rs] holds the best [top_k] of the candidates: nothing left out scores
    higher than a result kept, and nothing is left out while there is
    room. *)
Definition best_of (top_k : Z) (candidates rs : list result) : Prop :=
  ∃ rest,
    rs ++ rest ≡ₚ candidates ∧
    (∀ r c, r ∈ rs → c ∈ rest → (score c <= score r)%Q) ∧
    length rs = Nat.min (Z.to_nat top_k) (length candidates).

(** [r] is the scored entry of an item of one of the corpora, for some
    keyword list. *)
Definition from_corpora (stem : string -> string) (DOA_DATA HADIS_DATA : list item)
    (r : result) : Prop :=
  (∃ qk d, d ∈ DOA_DATA ∧ r = doa_result stem qk d) ∨
  (∃ qk d, d ∈ HADIS_DATA ∧ r = hadis_result stem qk d).

(** A candidate of the pool: a corpus entry above the threshold. *)
Definition candidate (stem : string -> string) (DOA_DATA HADIS_DATA : list item)
    (r : result) : Prop :=
  from_corpora stem DOA_DATA HADIS_DATA r ∧ above_threshold r.

(** ** The browse endpoint *)

(** The answers of [browse]: the listing of a corpus, or an error with its
    HTTP status. *)
Inductive browse_response :=
| BROWSE_OK (category : string) (total : nat) (entries : list result)
| BROWSE_ERROR (message : string) (status : nat).

(** [browse(category)]: every item of the corpus, tagged, with score 1.0. *)
Definition browse (DOA_DATA HADIS_DATA : list item) (category : string)
    : browse_response :=
  if String.eqb category "doa" then
    BROWSE_OK "doa" (length DOA_DATA)
      (map (fun d => {| score := 1; data := with_source_type d "doa" |}) DOA_DATA)
  else if String.eqb category "hadis" then
    BROWSE_OK "hadis" (length HADIS_DATA)
      (map (fun h => {| score := 1; data := with_source_type h "hadis" |}) HADIS_DATA)
  else BROWSE_ERROR "Kategori tidak valid. Gunakan 'doa' atau 'hadis'." 400.

(** The entries that [browse] lists for a category, none on an error. *)
Definition browse_entries (DOA_DATA HADIS_DATA : list item) (category : string)
    : list result :=
  match browse DOA_DATA HADIS_DATA category with
  | BROWSE_OK _ _ entries => entries
  | BROWSE_ERROR _ _ => []
  end.

(** ** Shapes of strings *)

(** Every character of [s] satisfies [p]. *)
Fixpoint all_chars (p : ascii -> bool) (s : string) : bool :=
  match s with
  | EmptyString => true
  | String c s' => p c && all_chars p s'
  end.

(** A string made of whitespace only (the empty string included). *)
Definition whitespace_only (s : string) : Prop := all_chars isspace s = true.

(** A word: not empty and without whitespace. *)
Definition word (w : string) : Prop :=
  w ≠ "" ∧ all_chars (fun c => negb (isspace c)) w = true.

(** [s] does not start, or does not end, with whitespace. *)
Definition starts_clean (s : string) : bool :=
  match s with
  | EmptyString => true
  | String c _ => negb (isspace c)
  end.

Fixpoint ends_clean (s : string) : bool :=
  match s with
  | EmptyString => true
  | String c s' =>
      match s' with
      | EmptyString => negb (isspace c)
      | String _ _ => ends_clean s'
      end
  end.

(** Every whitespace character of [s] is a space, and is not followed by
    whitespace. *)
Fixpoint single_spaced (s : string) : bool :=
  match s with
  | EmptyString => true
  | String c s' =>
      (if isspace c then Ascii.eqb c " " && starts_clean s' else true)
      && single_spaced s'
  end.

(** What [round(x, 3)] gives, however it breaks a tie: a whole number of
    thousandths that is half a thousandth away from [x] at most. *)
Definition rounds_to_thousandths (round_to_3 : Q -> Q) : Prop :=
  ∀ x : Q, ∃ k : Z,
    (round_to_3 x == k # 1000)%Q ∧
    (x - (1 # 2000) <= round_to_3 x <= x + (1 # 2000))%Q.




(** A text of ASCII characters only.  On such a text [str.lower],
    [str.strip], [str.split] and the regex classes [\s] and [[a-z0-9]] are
    the functions defined above. *)
Definition is_ascii (s : string) : bool := all_chars (fun c => code c <? 128) s.

(** The greeting that goes with a local hour: morning from 5 to 10, midday
    from 11 to 14, afternoon from 15 to 17, evening at every other hour, and
    the neutral greeting when the hour is not available. *)
Definition greets (hour : option Z) (greeting : string) : Prop :=
  match hour with
  | Some hour =>
      (greeting = "Selamat pagi" ↔ (5 ≤ hour < 11)%Z) ∧
      (greeting = "Selamat siang" ↔ (11 ≤ hour < 15)%Z) ∧
      (greeting = "Selamat sore" ↔ (15 ≤ hour < 18)%Z) ∧
      (greeting = "Selamat malam" ↔ (hour < 5 ∨ 18 ≤ hour)%Z)
  | None => greeting = "Selamat datang"
  end.

(** A state of the world in which the timezone service answers Asia/Tokyo,
    where it is seven in the evening, while it is five in the afternoon in
    Asia/Jakarta and the clock knows no other timezone. *)
Definition evening_in_tokyo : world :=
  {| fetch_timezone := fun _ _ => Some "Asia/Tokyo";
     local_hour := fun timezone_name =>
       if String.eqb timezone_name "Asia/Tokyo" then Some 19%Z
       else if String.eqb timezone_name "Asia/Jakarta" then Some 17%Z
       else None |}.

(** * Properties *)

Example get_keywords_sample :
  get_keywords root_stem "Doa sebelum  makan, yang itu!" = ["doa"; "sebelum"; "makan"].
Proof. vm_compute. reflexivity. Qed.

Example calculate_match_score_sample :
  calculate_match_score root_stem ["sabar"] "kesabaran itu indah" None = (400 # 1000)%Q.
Proof. vm_compute. reflexivity. Qed.

(** ** Strings and rationals *)

Lemma append_cons (c : ascii) (s t : string) : String c s +:+ t = String c (s +:+ t).
Proof. reflexivity. Qed.

Lemma append_nil (t : string) : "" +:+ t = t.
Proof. reflexivity. Qed.

Lemma prefix_spec (s t : string) :
  String.prefix s t = true ↔ ∃ post, t = s +:+ post.
Proof.
  revert t. induction s as [|c s IH]; intros t.
  - split; [intros _; exists t; reflexivity | intros _; destruct t; reflexivity].
  - destruct t as [|d t]; simpl.
    + split; [discriminate | intros [post H]; discriminate].
    + destruct (Ascii.ascii_dec c d) as [->|Hne].
      * rewrite IH. split; intros [post H]; exists post;
          rewrite append_cons in *; congruence.
      * split; [discriminate | intros [post H]; rewrite append_cons in H; congruence].
Qed.

(** [contains] is the occurrence of [s] inside [t]. *)
Lemma contains_spec (s t : string) :
  contains s t = true ↔ ∃ pre post, t = pre +:+ s +:+ post.
Proof.
  induction t as [|d t IH].
  - destruct s as [|c s]; simpl; split.
    + intros _. exists "", "". reflexivity.
    + reflexivity.
    + discriminate.
    + intros (pre & post & H). destruct pre; discriminate.
  - change (contains s (String d t))
      with (String.prefix s (String d t) || contains s t).
    rewrite orb_true_iff, prefix_spec, IH. split.
    + intros [[post H] | (pre & post & H)].
      * exists "", post. exact H.
      * exists (String d pre), post. rewrite append_cons. congruence.
    + intros (pre & post & H). destruct pre as [|e pre].
      * left. exists post. exact H.
      * right. exists pre, post. rewrite append_cons in H. congruence.
Qed.

Lemma Qltb_lt (x y : Q) : Qltb x y = true ↔ (x < y)%Q.
Proof. unfold Qltb, Qlt. apply Z.ltb_lt. Qed.

Lemma Qltb_ge (x y : Q) : Qltb x y = false ↔ (y <= x)%Q.
Proof. unfold Qltb, Qle. apply Z.ltb_ge. Qed.

Lemma Qadd_nonneg (x y : Q) : (0 <= x)%Q → (0 <= y)%Q → (0 <= x + y)%Q.
Proof.
  intros Hx Hy. apply (Qle_trans _ (0 + 0)%Q); [done|].
  by apply Qplus_le_compat.
Qed.

Lemma Q_of_nat_S (n : nat) : (Q_of_nat (S n) == Q_of_nat n + 1)%Q.
Proof. unfold Q_of_nat. rewrite Nat2Z.inj_succ, <- Z.add_1_r, inject_Z_plus. reflexivity. Qed.

Lemma Q_of_nat_nonneg (n : nat) : (0 <= Q_of_nat n)%Q.
Proof. unfold Q_of_nat, Qle. simpl. lia. Qed.

(** ** C1: the partial-substring bonus *)

Lemma scan_target_words_spec (qw : string) (tws : list string) (pb : Q) :
  scan_target_words qw tws pb =
  if decide (Exists (partial_match qw) tws) then (pb + (1 # 10))%Q else pb.
Proof.
  induction tws as [|tw tws IH]; cbn [scan_target_words].
  - rewrite decide_False; [reflexivity | by intros H%Exists_nil].
  - destruct (decide (partial_match qw tw)) as [Hm|Hm].
    + rewrite decide_True by (by apply Exists_cons_hd).
      destruct Hm as (Hq%Nat.leb_le & Ht%Nat.leb_le & Hc%orb_true_iff).
      by rewrite Hq, Ht, Hc.
    + assert (Exists (partial_match qw) (tw :: tws) ↔ Exists (partial_match qw) tws)
        as Hiff by (rewrite Exists_cons; tauto).
      rewrite (decide_ext _ _ _ _ Hiff), <- IH.
      destruct (4 <=? String.length qw) eqn:Hq; [|reflexivity].
      destruct (4 <=? String.length tw) eqn:Ht; [|reflexivity].
      destruct (contains qw tw || contains tw qw) eqn:Hc; [|reflexivity].
      exfalso. apply Hm. unfold partial_match.
      apply Nat.leb_le in Hq, Ht. apply orb_true_iff in Hc. tauto.
Qed.

Lemma partial_bonus_fold (tws qws : list string) (init : Q) :
  (fold_left (fun pb qw => scan_target_words qw tws pb) qws init ==
   init + (1 # 10) * Q_of_nat (length (filter (fun qw => Exists (partial_match qw) tws) qws)))%Q.
Proof.
  revert init. induction qws as [|qw qws IH]; intros init; simpl.
  - unfold Q_of_nat. simpl. ring.
  - rewrite IH, scan_target_words_spec, filter_cons.
    destruct (decide (Exists (partial_match qw) tws)); simpl.
    + rewrite Q_of_nat_S. ring.
    + reflexivity.
Qed.

Lemma size_filter_elements `{Countable A} (P : A → Prop) `{!∀ x, Decision (P x)}
    (X : gset A) :
  size (filter P X) = length (filter P (elements X)).
Proof.
  unfold filter at 1, set_filter. apply size_list_to_set, NoDup_filter, NoDup_elements.
Qed.

Lemma partial_bonus_per_query_keyword_aux (query_set target_words : gset string) :
  (partial_bonus query_set target_words ==
   (1 # 10) * Q_of_nat (size (filter (qualifying target_words) query_set)))%Q.
Proof.
  unfold partial_bonus, partial_bonus_loop.
  rewrite partial_bonus_fold, size_filter_elements.
  rewrite Qplus_0_l.
  replace (filter (qualifying target_words) (elements query_set))
    with (filter (fun qw => Exists (partial_match qw) (elements target_words))
                 (elements query_set)); [reflexivity|].
  apply list_filter_iff. intros qw. unfold qualifying.
  by rewrite set_Exists_elements.
Qed.

Example partial_bonus_once_per_keyword :
  (partial_bonus {["sabar"]} {["kesabaran"; "bersabar"; "sabar"]} == 1 # 10)%Q.
Proof. vm_compute. reflexivity. Qed.

(** C1. The partial-substring bonus is one tenth per qualifying query
    keyword: a keyword of length at least 4 for which some target word of
    length at least 4 contains it or is contained in it.  The scan of the
    target words stops at the first match, so a keyword matched by several
    target words still counts once, and the bonus never exceeds one tenth
    per query keyword. *)
Theorem partial_bonus_per_query_keyword (query_set target_words : gset string) :
  (partial_bonus query_set target_words ==
   (1 # 10) * Q_of_nat (size (filter (qualifying target_words) query_set)))%Q ∧
  (partial_bonus query_set target_words <= (1 # 10) * Q_of_nat (size query_set))%Q.
Proof.
  split; [apply partial_bonus_per_query_keyword_aux|].
  rewrite partial_bonus_per_query_keyword_aux.
  apply Qmult_le_l; [done|]. unfold Q_of_nat. rewrite <- Zle_Qle.
  apply Nat2Z.inj_le, subseteq_size. intros x Hx.
  by apply elem_of_filter in Hx as [_ ?].
Qed.

(** ** C2: range and rounding of the match score *)

(** Rounding keeps a rational between the integers that bound it. *)
Lemma round_half_even_bounds (a b : Z) (x : Q) :
  (inject_Z a <= x)%Q → (x <= inject_Z b)%Q →
  (a ≤ round_half_even x ≤ b)%Z.
Proof.
  destruct x as [n d]. unfold Qle, round_half_even. simpl.
  rewrite !Z.mul_1_r. intros Ha Hb.
  pose proof (Z.div_mod n (Z.pos d) ltac:(lia)) as Hdm.
  pose proof (Z.mod_pos_bound n (Z.pos d) ltac:(lia)) as Hr.
  set (q := (n / Z.pos d)%Z) in *. set (r := (n mod Z.pos d)%Z) in *.
  assert (a ≤ q)%Z by nia.
  assert (q ≤ b)%Z by nia.
  assert (0 < r → q + 1 ≤ b)%Z by nia.
  destruct (2 * r ?= Z.pos d)%Z eqn:Hc.
  - apply Z.compare_eq in Hc. destruct (Z.even q); lia.
  - lia.
  - apply Z.compare_gt_iff in Hc. lia.
Qed.

Lemma round3_bounds (x : Q) :
  (0 <= x)%Q → (x <= 1)%Q →
  ∃ k : Z, (0 ≤ k ≤ 1000)%Z ∧ round3 x = (k # 1000)%Q.
Proof.
  intros H0 H1. exists (round_half_even (x * 1000)). split; [|reflexivity].
  apply round_half_even_bounds.
  - change (inject_Z 0) with (0 * 1000)%Q. apply Qmult_le_compat_r; [exact H0 | done].
  - change (inject_Z 1000) with (1 * 1000)%Q. apply Qmult_le_compat_r; [exact H1 | done].
Qed.


Section ScoreFacts.

Variable stem : string -> string.


Lemma keyword_bonus_nonneg (query_set : gset string) (tk : option (list string)) :
  (0 <= keyword_bonus stem query_set tk)%Q.
Proof.
  unfold keyword_bonus. destruct tk as [[|kw kws]|]; try done.
  apply Qmult_le_0_compat; [apply Q_of_nat_nonneg | done].
Qed.

Lemma phrase_bonus_nonneg (qk : list string) (tt : string) :
  (0 <= phrase_bonus stem qk tt)%Q.
Proof. unfold phrase_bonus. by destruct (contains _ _). Qed.

Lemma partial_bonus_nonneg (query_set target_words : gset string) :
  (0 <= partial_bonus query_set target_words)%Q.
Proof.
  rewrite partial_bonus_per_query_keyword_aux.
  apply Qmult_le_0_compat; [done | apply Q_of_nat_nonneg].
Qed.

End ScoreFacts.

Lemma size_list_to_set_0 (l : list string) :
  size (list_to_set l : gset string) = 0 ↔ l = [].
Proof.
  split; [|intros ->; reflexivity].
  intros H%size_empty_inv. destruct l as [|x l]; [reflexivity|].
  exfalso. assert (x ∈ (list_to_set (x :: l) : gset string)) as Hx by set_solver.
  rewrite H in Hx. set_solver.
Qed.


Lemma nearest_integer_error (n : Z) (d : positive) (q r k : Z) :
  n = (Z.pos d * q + r)%Z → (0 ≤ r < Z.pos d)%Z → (q ≤ k ≤ q + 1)%Z →
  (k = q → 2 * r ≤ Z.pos d)%Z → (k = q + 1 → Z.pos d ≤ 2 * r)%Z →
  ((n # d) - (1 # 2) <= inject_Z k <= (n # d) + (1 # 2))%Q.
Proof.
  intros Hdm Hr Hk Hlo Hhi.
  assert (k = q ∨ k = (q + 1)%Z) as [->| ->] by lia;
    [specialize (Hlo eq_refl); clear Hhi | specialize (Hhi eq_refl); clear Hlo];
    unfold Qle, Qminus, Qplus, Qopp, inject_Z; cbn;
    rewrite ?Pos2Z.inj_mul; subst n; generalize dependent (Z.pos d);
    intros D **; split; nia.
Qed.

Lemma round_half_even_error (x : Q) :
  (x - (1 # 2) <= inject_Z (round_half_even x) <= x + (1 # 2))%Q.
Proof.
  destruct x as [n d]. unfold round_half_even. cbn [Qnum Qden].
  pose proof (Z.div_mod n (Z.pos d) ltac:(lia)) as Hdm.
  pose proof (Z.mod_pos_bound n (Z.pos d) ltac:(lia)) as Hr.
  set (q := (n / Z.pos d)%Z) in *. set (r := (n mod Z.pos d)%Z) in *.
  clearbody q r.
  destruct (2 * r ?= Z.pos d)%Z eqn:Hc.
  - apply Z.compare_eq in Hc.
    destruct (Z.even q);
      (apply (nearest_integer_error n d q r); [exact Hdm | exact Hr | lia..]).
  - rewrite Z.compare_lt_iff in Hc. apply (nearest_integer_error n d q r); [exact Hdm | exact Hr | lia..].
  - rewrite Z.compare_gt_iff in Hc. apply (nearest_integer_error n d q r); [exact Hdm | exact Hr | lia..].
Qed.

Lemma thousandths_error (k : Z) (x : Q) :
  (x - (1 # 2) <= inject_Z k <= x + (1 # 2))%Q →
  (x * (1 # 1000) - (1 # 2000) <= k # 1000 <= x * (1 # 1000) + (1 # 2000))%Q.
Proof.
  intros [Hlo Hhi].
  assert (k # 1000 == inject_Z k * (1 # 1000))%Q as ->.
  { unfold Qeq, Qmult, inject_Z. simpl. lia. }
  split.
  - apply (Qmult_le_compat_r _ _ (1 # 1000)) in Hlo; [|done].
    eapply Qle_trans; [|exact Hlo]. apply Qle_lteq. right. field.
  - apply (Qmult_le_compat_r _ _ (1 # 1000)) in Hhi; [|done].
    eapply Qle_trans; [exact Hhi|]. apply Qle_lteq. right. field.
Qed.

Lemma round3_rounds_to_thousandths : rounds_to_thousandths round3.
Proof.
  intros x. exists (round_half_even (x * 1000)). split; [reflexivity|].
  unfold round3.
  pose proof (thousandths_error _ _ (round_half_even_error (x * 1000))) as [Hlo Hhi].
  split.
  - eapply Qle_trans; [|exact Hlo]. apply Qle_lteq. right. field.
  - eapply Qle_trans; [exact Hhi|]. apply Qle_lteq. right. field.
Qed.



(** The scorer of the searches is the scorer with [round3] for the builtin. *)
Lemma calculate_match_score_with_round3 (stem : string -> string)
    (query_keywords : list string) (target_text : string)
    (target_keywords : option (list string)) :
  calculate_match_score stem query_keywords target_text target_keywords
  = calculate_match_score_with stem round3 query_keywords target_text target_keywords.
Proof. reflexivity. Qed.



(** ** C3: truncation to three results *)

(** C3. For a non-empty result list the composer answers [OK] with the
    first three results at most; [total] is the length of the list,
    [showing] is [min 3 total] and the number of results attached; when
    [total] exceeds 3 the message ends with the note that the top 3 of
    [total] are shown. *)
Theorem format_response_top3 (results : list result) (query : string)
    (intent : option intent_match) :
  results ≠ [] →
  ∃ message shown counts,
    format_response results query intent = OK message shown counts ∧
    shown = take 3 results ∧
    length shown ≤ 3 ∧
    total counts = length results ∧
    showing counts = Nat.min 3 (total counts) ∧
    showing counts = length shown ∧
    (3 < total counts →
     ∃ prefix, message = prefix +:+ " (menampilkan 3 teratas dari "
                         +:+ pretty (total counts) +:+ " hasil)") ∧
    (total counts ≤ 3 →
     message = found_message intent (doa_count counts) (hadis_count counts)).
Proof.
  intros Hne. destruct results as [|r rest]; [done|].
  unfold format_response.
  set (results := r :: rest).
  eexists _, _, _. split; [reflexivity|]. cbn [total showing doa_count hadis_count].
  split; [reflexivity|].
  split; [rewrite length_take; lia|].
  split; [reflexivity|].
  split; [reflexivity|].
  split; [rewrite length_take; lia|].
  split.
  - intros Hgt. apply Nat.ltb_lt in Hgt. rewrite Hgt. eexists. reflexivity.
  - intros Hle. apply Nat.ltb_ge in Hle. rewrite Hle. reflexivity.
Qed.

Lemma format_response_top3_witness :
  sample_results ≠ [] ∧
  ∃ message shown counts,
    format_response sample_results "makan" None = OK message shown counts ∧
    length shown ≤ 3 ∧ total counts = 4 ∧ showing counts = 3.
Proof.
  assert (sample_results ≠ []) as Hne by discriminate.
  split; [exact Hne|].
  destruct (format_response_top3 sample_results "makan" None Hne)
    as (message & shown & counts & Heq & _ & Hlen & Htotal & Hshowing & _).
  exists message, shown, counts.
  split; [exact Heq|]. split; [exact Hlen|]. split; [exact Htotal|].
  rewrite Hshowing, Htotal. reflexivity.
Defined.

Example format_response_sample :
  format_response sample_results "makan" None
  = OK "‚ú® Ditemukan 3 doa dan 1 hadis (menampilkan 3 teratas dari 4 hasil)"
       [scored 1 "d1" "doa"; scored 0.8 "h1" "hadis"; scored 0.5 "d2" "doa"]
       {| total := 4; doa_count := 3; hadis_count := 1; showing := 3 |}.
Proof. vm_compute. reflexivity. Qed.

(** ** The stable sort by non-increasing score *)

Lemma insert_desc_perm (r : result) (l : list result) : insert_desc r l ≡ₚ r :: l.
Proof.
  induction l as [|r' l IH]; simpl; [done|].
  destruct (Qltb (score r) (score r')); [|done].
  rewrite IH. apply Permutation_swap.
Qed.

Lemma sorted_desc_perm (l : list result) : sorted_desc l ≡ₚ l.
Proof.
  induction l as [|r l IH]; simpl; [done|].
  by rewrite insert_desc_perm, IH.
Qed.

Lemma sorted_desc_length (l : list result) : length (sorted_desc l) = length l.
Proof. by rewrite sorted_desc_perm. Qed.

Lemma sorted_desc_elem_of (l : list result) (r : result) : r ∈ sorted_desc l ↔ r ∈ l.
Proof. by rewrite sorted_desc_perm. Qed.

Lemma insert_desc_sorted (r : result) (l : list result) :
  StronglySorted score_ge l → StronglySorted score_ge (insert_desc r l).
Proof.
  induction 1 as [|r' l Hl IH Hall]; simpl.
  - by repeat constructor.
  - destruct (Qltb (score r) (score r')) eqn:Hc.
    + apply Qltb_lt in Hc. constructor; [exact IH|].
      rewrite insert_desc_perm. constructor; [|exact Hall].
      unfold score_ge. by apply Qlt_le_weak.
    + apply Qltb_ge in Hc. constructor; [by constructor|].
      constructor; [exact Hc|].
      eapply Forall_impl; [exact Hall|]. unfold score_ge. intros x Hx.
      by eapply Qle_trans.
Qed.

Lemma sorted_desc_sorted (l : list result) : StronglySorted score_ge (sorted_desc l).
Proof.
  induction l as [|r l IH]; simpl; [constructor | by apply insert_desc_sorted].
Qed.

Lemma strongly_sorted_non_increasing (l : list result) :
  StronglySorted score_ge l ↔ non_increasing l.
Proof.
  split.
  - induction 1 as [|r l Hl IH Hall]; intros i j x y Hij Hi Hj; [done|].
    destruct i as [|i], j as [|j]; try lia; simpl in *.
    + injection Hi as <-. rewrite Forall_forall in Hall.
      apply Hall. by eapply list_elem_of_lookup_2.
    + apply (IH i j); [lia | done | done].
  - induction l as [|r l IH]; intros H; constructor.
    + apply IH. intros i j x y Hij Hi Hj. apply (H (S i) (S j)); [lia | done | done].
    + apply Forall_forall. intros x [k Hk]%list_elem_of_lookup_1.
      apply (H 0 (S k)); [lia | done | done].
Qed.

Lemma strongly_sorted_take (n : nat) (l : list result) :
  StronglySorted score_ge l → StronglySorted score_ge (take n l).
Proof.
  intros H. revert n. induction H as [|r l Hl IH Hall]; intros [|n]; simpl;
    try constructor; [apply IH|].
  apply Forall_forall. intros x Hx. rewrite Forall_forall in Hall.
  apply Hall. by apply (subseteq_take n l).
Qed.

(** Stability: the results of any one score keep their order. *)
Lemma filter_insert_desc (s : Q) (r : result) (l : list result) :
  filter (has_score s) (insert_desc r l) = filter (has_score s) (r :: l).
Proof.
  induction l as [|r' l IH]; simpl; [done|].
  destruct (Qltb (score r) (score r')) eqn:Hc; [|done].
  apply Qltb_lt in Hc.
  rewrite (filter_cons _ r'), IH, !filter_cons.
  destruct (decide (has_score s r')) as [H'|H'], (decide (has_score s r)) as [H|H];
    try reflexivity.
  unfold has_score in *. rewrite H, H' in Hc. by apply Qlt_irrefl in Hc.
Qed.

Lemma filter_sorted_desc (s : Q) (l : list result) :
  filter (has_score s) (sorted_desc l) = filter (has_score s) l.
Proof.
  induction l as [|r l IH]; simpl; [done|].
  by rewrite filter_insert_desc, !filter_cons, IH.
Qed.

Lemma filter_none {A : Type} (P : A → Prop) `{!∀ x, Decision (P x)} (l : list A) :
  (∀ x, ¬ P x) → filter P l = [].
Proof.
  intros Hno. induction l as [|x l IH]; [done|].
  rewrite filter_cons, decide_False; [exact IH | apply Hno].
Qed.

Lemma prefix_filter {A : Type} (P : A → Prop) `{!∀ x, Decision (P x)} (l1 l2 : list A) :
  l1 `prefix_of` l2 → filter P l1 `prefix_of` filter P l2.
Proof. intros [k ->]. rewrite filter_app. by eexists. Qed.

(** Positions in a filtered list and in the list it is taken from. *)
Lemma filter_lookup_order {A : Type} (P : A → Prop) `{!∀ x, Decision (P x)}
    (l : list A) (i j : nat) (x y : A) :
  i < j → filter P l !! i = Some x → filter P l !! j = Some y →
  ∃ a b, a < b ∧ l !! a = Some x ∧ l !! b = Some y.
Proof.
  revert i j. induction l as [|z l IH]; intros i j Hij Hi Hj; [done|].
  rewrite filter_cons in Hi, Hj. destruct (decide (P z)) as [Hz|Hz].
  - destruct i as [|i], j as [|j]; try lia; simpl in Hi, Hj.
    + injection Hi as ->.
      assert (y ∈ l) as [b Hb]%list_elem_of_lookup_1.
      { apply list_elem_of_lookup_2 in Hj. by apply list_elem_of_filter in Hj as [_ ?]. }
      exists 0, (S b). split; [lia | done].
    + destruct (IH i j) as (a & b & Hab & Ha & Hb); [lia | done | done |].
      exists (S a), (S b). split; [lia | done].
  - destruct (IH i j) as (a & b & Hab & Ha & Hb); [lia | done | done |].
    exists (S a), (S b). split; [lia | done].
Qed.

Lemma lookup_filter_order {A : Type} (P : A → Prop) `{!∀ x, Decision (P x)}
    (l : list A) (p q : nat) (x y : A) :
  p < q → l !! p = Some x → l !! q = Some y → P x → P y →
  ∃ i j, i < j ∧ filter P l !! i = Some x ∧ filter P l !! j = Some y.
Proof.
  revert p q. induction l as [|z l IH]; intros p q Hpq Hp Hq Hx Hy; [done|].
  rewrite filter_cons. destruct p as [|p], q as [|q]; try lia; simpl in Hp, Hq.
  - injection Hp as ->. rewrite decide_True by done.
    assert (y ∈ filter P l) as [j Hj]%list_elem_of_lookup_1.
    { apply list_elem_of_filter. split; [done | by eapply list_elem_of_lookup_2]. }
    exists 0, (S j). split; [lia | done].
  - destruct (IH p q) as (i & j & Hij & Hi & Hj); [lia | done..|].
    destruct (decide (P z)).
    + exists (S i), (S j). split; [lia | done].
    + exists i, j. done.
Qed.

Lemma slice_to_take {A : Type} (k : Z) (l : list A) :
  (0 ≤ k)%Z → slice_to k l = take (Z.to_nat k) l.
Proof. intros Hk. unfold slice_to. by rewrite (proj2 (Z.ltb_ge k 0)). Qed.

(** ** C4: the corpus searches *)

Lemma Qltb_above_threshold (r : result) :
  Qltb (1 # 10) (score r) = bool_decide (above_threshold r).
Proof.
  destruct (Qltb (1 # 10) (score r)) eqn:Hc; symmetry.
  - apply bool_decide_eq_true. by apply Qltb_lt.
  - apply bool_decide_eq_false. apply Qltb_ge in Hc. by apply Qle_not_lt.
Qed.

Section SearchFacts.

Variable stem : string -> string.
Variable query_keywords : list string.

(** The loop of [search_doa] returns the entries above the threshold, in
    corpus order, when every item has its fields, and raises otherwise. *)
Lemma search_doa_loop_spec (dataset : list item) (acc : list result) :
  match search_doa_loop stem query_keywords dataset acc with
  | Return rs =>
      Forall complete_doa dataset ∧
      rs = acc ++ filter above_threshold (map (doa_result stem query_keywords) dataset)
  | Raise _ => ¬ Forall complete_doa dataset
  end.
Proof.
  revert acc. induction dataset as [|doa rest IH]; intros acc;
    cbn [search_doa_loop].
  - split; [constructor | by rewrite app_nil_r].
  - unfold getitem.
    destruct (judul doa) as [j|] eqn:Hj; cbn [mbind res_bind];
      [|intros [Hc _]%Forall_cons; unfold complete_doa in Hc; rewrite Hj in Hc;
        by destruct Hc as [[? [=]] _]].
    destruct (arti doa) as [a|] eqn:Ha; cbn [mbind res_bind];
      [|intros [Hc _]%Forall_cons; unfold complete_doa in Hc; rewrite Ha in Hc;
        by destruct Hc as [_ [? [=]]]].
    assert (complete_doa doa) as Hdoa by (unfold complete_doa; rewrite Hj, Ha; eauto).
    assert (j +:+ " " +:+ a +:+ " " +:+ default "" (latin doa) = doa_searchable doa)
      as -> by (unfold doa_searchable; by rewrite Hj, Ha).
    change (calculate_match_score stem query_keywords (doa_searchable doa) None)
      with (score (doa_result stem query_keywords doa)).
    rewrite Qltb_above_threshold. rewrite fmap_cons, filter_cons.
    change ({| score := score (doa_result stem query_keywords doa);
               data := with_source_type doa "doa" |})
      with (doa_result stem query_keywords doa).
    destruct (decide (above_threshold (doa_result stem query_keywords doa))) as [Hd|Hd].
    + rewrite bool_decide_eq_true_2 by done.
      specialize (IH (acc ++ [doa_result stem query_keywords doa])).
      destruct (search_doa_loop _ _ _ _) as [rs|e].
      * destruct IH as [Hall ->]. split; [by constructor|].
        by rewrite <- app_assoc.
      * intros [_ ?]%Forall_cons. by apply IH.
    + rewrite bool_decide_eq_false_2 by done.
      specialize (IH acc). destruct (search_doa_loop _ _ _ _) as [rs|e].
      * destruct IH as [Hall ->]. split; [by constructor | done].
      * intros [_ ?]%Forall_cons. by apply IH.
Qed.

Lemma search_hadis_loop_spec (dataset : list item) (acc : list result) :
  match search_hadis_loop stem query_keywords dataset acc with
  | Return rs =>
      Forall complete_hadis dataset ∧
      rs = acc ++ filter above_threshold (map (hadis_result stem query_keywords) dataset)
  | Raise _ => ¬ Forall complete_hadis dataset
  end.
Proof.
  revert acc. induction dataset as [|hadis rest IH]; intros acc;
    cbn [search_hadis_loop].
  - split; [constructor | by rewrite app_nil_r].
  - unfold getitem.
    destruct (tema hadis) as [t|] eqn:Ht; cbn [mbind res_bind];
      [|intros [Hc _]%Forall_cons; unfold complete_hadis in Hc; rewrite Ht in Hc;
        by destruct Hc as [[? [=]] _]].
    destruct (arti hadis) as [a|] eqn:Ha; cbn [mbind res_bind];
      [|intros [Hc _]%Forall_cons; unfold complete_hadis in Hc; rewrite Ha in Hc;
        by destruct Hc as [_ [? [=]]]].
    assert (complete_hadis hadis) as Hh by (unfold complete_hadis; rewrite Ht, Ha; eauto).
    assert (t +:+ " " +:+ a = hadis_searchable hadis)
      as -> by (unfold hadis_searchable; by rewrite Ht, Ha).
    change (calculate_match_score stem query_keywords (hadis_searchable hadis)
              (Some (default [] (kata_kunci hadis))))
      with (score (hadis_result stem query_keywords hadis)).
    rewrite Qltb_above_threshold. rewrite fmap_cons, filter_cons.
    change ({| score := score (hadis_result stem query_keywords hadis);
               data := with_source_type hadis "hadis" |})
      with (hadis_result stem query_keywords hadis).
    destruct (decide (above_threshold (hadis_result stem query_keywords hadis))) as [Hd|Hd].
    + rewrite bool_decide_eq_true_2 by done.
      specialize (IH (acc ++ [hadis_result stem query_keywords hadis])).
      destruct (search_hadis_loop _ _ _ _) as [rs|e].
      * destruct IH as [Hall ->]. split; [by constructor|].
        by rewrite <- app_assoc.
      * intros [_ ?]%Forall_cons. by apply IH.
    + rewrite bool_decide_eq_false_2 by done.
      specialize (IH acc). destruct (search_hadis_loop _ _ _ _) as [rs|e].
      * destruct IH as [Hall ->]. split; [by constructor | done].
      * intros [_ ?]%Forall_cons. by apply IH.
Qed.

End SearchFacts.

(** Sorting the entries above the threshold and keeping the first [top_k]
    gives a ranked list. *)
Lemma ranked_sorted_slice_classes (top_k : Z) (scored : list result) :
  (0 ≤ top_k)%Z →
  let rs := slice_to top_k (sorted_desc (filter above_threshold scored)) in
  (Z.of_nat (length rs) ≤ top_k)%Z ∧
  Forall above_threshold rs ∧
  non_increasing rs ∧
  (∀ r, r ∈ rs → r ∈ scored) ∧
  (∀ s, filter (has_score s) rs `prefix_of` filter (has_score s) scored).
Proof.
  intros Hk rs. subst rs. rewrite slice_to_take by done.
  set (cands := filter above_threshold scored).
  repeat split.
  - rewrite length_take. lia.
  - apply Forall_take, Forall_forall. intros r Hr.
    apply (proj1 (sorted_desc_elem_of _ _)) in Hr.
    by apply list_elem_of_filter in Hr as [? _].
  - apply strongly_sorted_non_increasing, strongly_sorted_take, sorted_desc_sorted.
  - intros r Hr%subseteq_take.
    apply (proj1 (sorted_desc_elem_of _ _)) in Hr.
    by apply list_elem_of_filter in Hr as [_ ?].
  - intros s. etrans; [apply prefix_filter, prefix_take|].
    rewrite filter_sorted_desc. unfold cands. rewrite list_filter_filter.
    destruct (Qlt_le_dec (1 # 10) s) as [Hs|Hs].
    + erewrite list_filter_iff; [done|]. intros r. unfold has_score, above_threshold.
      split; [tauto|]. intros Hr. split; [done|]. by rewrite Hr.
    + replace (filter _ scored) with (@nil result); [apply prefix_nil|].
      symmetry. apply filter_none. intros r [Hr Ht].
      unfold has_score, above_threshold in *. rewrite Hr in Ht.
      by apply Qle_not_lt in Hs.
Qed.

Lemma ranked_sorted_slice (top_k : Z) (scored : list result) :
  (0 ≤ top_k)%Z →
  ranked_top_k top_k scored (slice_to top_k (sorted_desc (filter above_threshold scored))).
Proof.
  intros Hk.
  destruct (ranked_sorted_slice_classes top_k scored Hk) as (H1 & H2 & H3 & H4 & H5).
  repeat split; try done.
  intros p q r r' Hpq Hp Hq Heq.
  destruct (lookup_filter_order (has_score (score r)) _ p q r r' Hpq Hp Hq)
    as (i & j & Hij & Hi & Hj); [done | by symmetry |].
  apply (prefix_lookup_Some _ _ _ _ Hi) in H5 as Hi'.
  apply (prefix_lookup_Some _ _ _ _ Hj) in H5 as Hj'.
  by eapply filter_lookup_order.
Qed.

Example search_doa_sample :
  search_doa root_stem sample_doa ["makan"] 10 =
  Return [doa_result root_stem ["makan"] (doa_item "d1" "Doa Sebelum Makan" "berkah rezeki");
          doa_result root_stem ["makan"] (doa_item "d2" "Doa Sesudah Makan" "puji syukur")].
Proof. vm_compute. reflexivity. Qed.

(** C4. A corpus search called with a non-negative [top_k] (10 by
    default) returns, for a corpus whose items have their text fields, at
    most [top_k] results, each with a score above 0.1, in non-increasing
    order of score, the results of any one score being the first corpus
    entries of that score in corpus order; it raises exactly when an item
    lacks a text field. *)
Theorem search_results_ranked (stem : string -> string) (DOA_DATA HADIS_DATA : list item)
    (query_keywords : list string) (top_k : Z) :
  (0 ≤ top_k)%Z →
  match search_doa stem DOA_DATA query_keywords top_k with
  | Return rs =>
      Forall complete_doa DOA_DATA ∧
      ranked_top_k top_k (map (doa_result stem query_keywords) DOA_DATA) rs
  | Raise _ => ¬ Forall complete_doa DOA_DATA
  end ∧
  match search_hadis stem HADIS_DATA query_keywords top_k with
  | Return rs =>
      Forall complete_hadis HADIS_DATA ∧
      ranked_top_k top_k (map (hadis_result stem query_keywords) HADIS_DATA) rs
  | Raise _ => ¬ Forall complete_hadis HADIS_DATA
  end.
Proof.
  intros Hk. split.
  - unfold search_doa.
    pose proof (search_doa_loop_spec stem query_keywords DOA_DATA []) as H.
    destruct (search_doa_loop _ _ _ _) as [rs|e]; cbn [mbind res_bind mret res_ret];
      [|exact H].
    destruct H as [Hall ->]. split; [exact Hall|]. by apply ranked_sorted_slice.
  - unfold search_hadis.
    pose proof (search_hadis_loop_spec stem query_keywords HADIS_DATA []) as H.
    destruct (search_hadis_loop _ _ _ _) as [rs|e]; cbn [mbind res_bind mret res_ret];
      [|exact H].
    destruct H as [Hall ->]. split; [exact Hall|]. by apply ranked_sorted_slice.
Qed.

Lemma search_results_ranked_witness :
  (0 ≤ 10)%Z ∧
  (match search_doa root_stem sample_doa ["makan"] 10 with
   | Return rs =>
       Forall complete_doa sample_doa ∧
       ranked_top_k 10 (map (doa_result root_stem ["makan"]) sample_doa) rs
   | Raise _ => ¬ Forall complete_doa sample_doa
   end ∧
   match search_hadis root_stem sample_hadis ["makan"] 10 with
   | Return rs =>
       Forall complete_hadis sample_hadis ∧
       ranked_top_k 10 (map (hadis_result root_stem ["makan"]) sample_hadis) rs
   | Raise _ => ¬ Forall complete_hadis sample_hadis
   end).
Proof.
  split; [lia|].
  apply (search_results_ranked root_stem sample_doa sample_hadis ["makan"] 10). lia.
Defined.

(** ** C5: deduplication *)

Lemma dedup_loop_from (results : list result) (seen_ids : gset ident)
    (unique : list result) :
  dedup_loop results seen_ids unique = unique ++ dedup_from seen_ids results.
Proof.
  revert seen_ids unique. induction results as [|r rest IH]; intros seen_ids unique;
    simpl; [by rewrite app_nil_r|].
  destruct (id (data r)) as [i|]; [|apply IH].
  destruct (truthy i && bool_decide (i ∉ seen_ids)); [|apply IH].
  by rewrite IH, <- app_assoc.
Qed.

Lemma dedup_from_elem_of (seen_ids : gset ident) (results : list result) (r : result) :
  r ∈ dedup_from seen_ids results ↔
  ∃ i pre post,
    results = pre ++ r :: post ∧ id (data r) = Some i ∧ truthy i = true ∧
    (i ∉ seen_ids) ∧ Forall (fun r' => id (data r') ≠ Some i) pre.
Proof.
  revert seen_ids. induction results as [|x rest IH]; intros seen_ids; simpl.
  - split; [by intros ?%elem_of_nil|]. intros (i & pre & post & H & _).
    by destruct pre.
  - destruct (id (data x)) as [ix|] eqn:Hx.
    + destruct (truthy ix && bool_decide (ix ∉ seen_ids)) eqn:Hc.
      * apply andb_true_iff in Hc as [Ht Hs%bool_decide_eq_true].
        rewrite elem_of_cons, IH. split.
        -- intros [->|(i & pre & post & -> & Hi & Hti & Hsi & Hpre)].
           ++ exists ix, [], rest. by repeat split.
           ++ exists i, (x :: pre), post. repeat split; try done.
              ** intros Hin. apply Hsi, elem_of_union. by right.
              ** constructor; [|done]. rewrite Hx. intros [= ->].
                 apply Hsi, elem_of_union. left. by apply elem_of_singleton.
        -- intros (i & pre & post & H & Hi & Hti & Hsi & Hpre).
           destruct pre as [|y pre]; simpl in H; injection H as -> ->; [by left|].
           right. apply Forall_cons in Hpre as [Hy Hpre].
           exists i, pre, post. repeat split; try done.
           rewrite Hx in Hy.
           intros [Hin%elem_of_singleton|Hin]%elem_of_union; [congruence | done].
      * rewrite IH. split.
        -- intros (i & pre & post & -> & Hi & Hti & Hsi & Hpre).
           exists i, (x :: pre), post. repeat split; try done.
           constructor; [|done]. rewrite Hx. intros [= ->].
           apply andb_false_iff in Hc as [Hc|Hc%bool_decide_eq_false];
             [congruence | done].
        -- intros (i & pre & post & H & Hi & Hti & Hsi & Hpre).
           destruct pre as [|y pre]; simpl in H; injection H as -> ->.
           ++ rewrite Hx in Hi. injection Hi as ->.
              apply andb_false_iff in Hc as [Hc|Hc%bool_decide_eq_false];
                [congruence | done].
           ++ apply Forall_cons in Hpre as [_ Hpre]. by exists i, pre, post.
    + rewrite IH. split.
      * intros (i & pre & post & -> & Hi & Hti & Hsi & Hpre).
        exists i, (x :: pre), post. repeat split; try done.
        constructor; [by rewrite Hx | done].
      * intros (i & pre & post & H & Hi & Hti & Hsi & Hpre).
        destruct pre as [|y pre]; simpl in H; injection H as -> ->; [congruence|].
        apply Forall_cons in Hpre as [_ Hpre]. by exists i, pre, post.
Qed.

Lemma deduplicate_by_id_elem_of (results : list result) (r : result) :
  r ∈ deduplicate_by_id results ↔ first_occurrence results r.
Proof.
  unfold deduplicate_by_id, first_occurrence.
  rewrite dedup_loop_from, app_nil_l, dedup_from_elem_of.
  split.
  - intros (i & pre & post & H1 & H2 & H3 & _ & H4). by exists i, pre, post.
  - intros (i & pre & post & H1 & H2 & H3 & H4). exists i, pre, post.
    by repeat split.
Qed.

(** The identifiers kept are pairwise different and were not seen. *)
Lemma dedup_from_ids (seen_ids : gset ident) (results : list result) :
  Forall (fun r => ∃ i, id (data r) = Some i ∧ i ∉ seen_ids) (dedup_from seen_ids results) ∧
  NoDup (map (fun r => id (data r)) (dedup_from seen_ids results)).
Proof.
  revert seen_ids. induction results as [|x rest IH]; intros seen_ids; simpl.
  - split; constructor.
  - destruct (id (data x)) as [ix|] eqn:Hx; [|apply IH].
    destruct (truthy ix && bool_decide (ix ∉ seen_ids)) eqn:Hc; [|apply IH].
    apply andb_true_iff in Hc as [_ Hs%bool_decide_eq_true].
    destruct (IH ({[ix]} ∪ seen_ids)) as [Hall Hnd]. split.
    + constructor; [by exists ix|].
      eapply Forall_impl; [exact Hall|]. intros r (i & Hi & Hni).
      exists i. split; [done|]. intros Hin. apply Hni, elem_of_union. by right.
    + rewrite fmap_cons. apply NoDup_cons. split; [|exact Hnd].
      intros (r & Hr & Hin)%list_elem_of_fmap.
      rewrite Forall_forall in Hall. destruct (Hall r Hin) as (i & Hi & Hni).
      apply Hni, elem_of_union. left. apply elem_of_singleton. congruence.
Qed.

Lemma deduplicate_by_id_nodup (results : list result) :
  NoDup (map (fun r => id (data r)) (deduplicate_by_id results)).
Proof.
  unfold deduplicate_by_id. rewrite dedup_loop_from, app_nil_l. apply dedup_from_ids.
Qed.

(** A result with a non-empty identifier has a first occurrence. *)
Lemma first_occurrence_exists (results : list result) (r' : result) (i : ident) :
  r' ∈ results → id (data r') = Some i → truthy i = true →
  ∃ r, first_occurrence results r ∧ id (data r) = Some i.
Proof.
  intros Hin Hi Ht. induction results as [|x rest IH]; [by apply elem_of_nil in Hin|].
  destruct (decide (id (data x) = Some i)) as [Hx|Hx].
  - exists x. split; [|done]. exists i, [], rest. by repeat split.
  - apply elem_of_cons in Hin as [->|Hin]; [done|].
    destruct (IH Hin) as (r & (i0 & pre & post & -> & Hi0 & Ht0 & Hpre) & Hr).
    exists r. split; [|done]. exists i, (x :: pre), post.
    assert (i0 = i) as -> by congruence.
    repeat split; try done. by constructor.
Qed.

Example dedup_sample :
  deduplicate_by_id [scored 0.5 "7" "doa"; scored 0.9 "8" "doa"; scored 0.9 "7" "hadis"]
  = [scored 0.5 "7" "doa"; scored 0.9 "8" "doa"].
Proof. vm_compute. reflexivity. Qed.

(** C5, counterexample. One doa and one hadis carry the identifier 7; the
    merged list holds the doa first with score 0.2, then the hadis with
    score 0.9.  The entry kept for 7 after deduplication and sorting is
    the doa, with the lower score. *)
Lemma dedup_keeps_lower_score :
  let merged := [scored 0.2 "7" "doa"; scored 0.9 "7" "hadis"] in
  ∃ kept other,
    sorted_desc (deduplicate_by_id merged) = [kept] ∧
    other ∈ merged ∧ id (data other) = id (data kept) ∧
    (score kept < score other)%Q.
Proof.
  exists (scored 0.2 "7" "doa"), (scored 0.9 "7" "hadis").
  split; [vm_compute; reflexivity|].
  split; [set_solver|]. split; reflexivity.
Qed.

(** C5, as amended. After deduplication and sorting the output holds, for
    every non-empty identifier of the merged list, the first result that
    carries it in merged order, and nothing else, so one entry for each
    identifier; when the merged list is in non-increasing order of score,
    that entry has the maximum score among the results carrying the
    identifier. *)
Theorem dedup_keeps_first_occurrence (merged : list result) :
  let final := sorted_desc (deduplicate_by_id merged) in
  (∀ r, r ∈ final ↔ first_occurrence merged r) ∧
  NoDup (map (fun r => id (data r)) final) ∧
  (∀ r' i, r' ∈ merged → id (data r') = Some i → truthy i = true →
           ∃ r, r ∈ final ∧ id (data r) = Some i) ∧
  (non_increasing merged →
   ∀ r r', r ∈ final → r' ∈ merged → id (data r') = id (data r) →
           (score r' <= score r)%Q).
Proof.
  intros final.
  assert (∀ r, r ∈ final ↔ first_occurrence merged r) as Hfinal.
  { intros r. unfold final. by rewrite sorted_desc_elem_of, deduplicate_by_id_elem_of. }
  split; [exact Hfinal|]. split; [|split].
  - unfold final. rewrite sorted_desc_perm. apply deduplicate_by_id_nodup.
  - intros r' i Hin Hi Ht.
    destruct (first_occurrence_exists merged r' i Hin Hi Ht) as (r & Hr & Hri).
    exists r. split; [by apply Hfinal | done].
  - intros Hsorted%strongly_sorted_non_increasing r r' Hr Hr' Hid.
    apply Hfinal in Hr as (i & pre & post & -> & Hi & Ht & Hpre).
    apply elem_of_app in Hr' as [Hr'|Hr'].
    + rewrite Forall_forall in Hpre. destruct (Hpre r' Hr'). congruence.
    + apply elem_of_cons in Hr' as [->|Hr']; [apply Qle_refl|].
      apply StronglySorted_app_1_r, StronglySorted_inv in Hsorted as [_ Hall].
      rewrite Forall_forall in Hall. by apply Hall.
Qed.

Lemma dedup_keeps_first_occurrence_witness :
  let merged := [scored 0.9 "7" "hadis"; scored 0.5 "8" "doa"; scored 0.2 "7" "doa"] in
  non_increasing merged ∧
  (scored 0.2 "7" "doa" ∈ merged →
   id (data (scored 0.2 "7" "doa")) = id (data (scored 0.9 "7" "hadis")) →
   (score (scored 0.2 "7" "doa") <= score (scored 0.9 "7" "hadis"))%Q).
Proof.
  intros merged.
  assert (non_increasing merged) as Hs.
  { apply strongly_sorted_non_increasing. unfold merged.
    repeat constructor; unfold score_ge; simpl; unfold Qle; simpl; lia. }
  split; [exact Hs|].
  apply (proj2 (proj2 (proj2 (dedup_keeps_first_occurrence merged))) Hs).
  apply (proj1 (sorted_desc_elem_of _ _)). vm_compute. left.
Defined.

(** ** C6: keyword extraction *)

(** C6, counterexample. A word that occurs twice in the text occurs twice
    in the keywords: the result is a list, not a duplicate-free set. *)
Lemma get_keywords_keeps_duplicates :
  get_keywords root_stem "doa makan doa" = ["doa"; "makan"; "doa"] ∧
  ¬ NoDup (get_keywords root_stem "doa makan doa").
Proof.
  assert (get_keywords root_stem "doa makan doa" = ["doa"; "makan"; "doa"]) as H
    by (vm_compute; reflexivity).
  split; [exact H|]. rewrite H. intros Hnd.
  apply NoDup_cons in Hnd as [Hnot _]. apply Hnot. set_solver.
Qed.

(** C6, as amended. Keyword extraction returns the tokens of the cleaned
    and stemmed text that are longer than one character and outside the
    stopword list, in their order of occurrence and with repetitions kept;
    for the empty text, which the stemmer leaves empty, it returns the
    empty list. *)
Theorem get_keywords_tokens (stem : string -> string) (text : string) :
  stem "" = "" →
  let tokens := split (preprocess stem text) in
  let kws := get_keywords stem text in
  Forall is_keyword kws ∧
  kws `sublist_of` tokens ∧
  (∀ w, is_keyword w → length (filter (w =.) kws) = length (filter (w =.) tokens)) ∧
  get_keywords stem "" = [].
Proof.
  intros Hstem tokens kws. subst kws. unfold get_keywords. fold tokens.
  change (fun w => 1 < String.length w ∧ w ∉ STOPWORDS) with is_keyword.
  split; [|split; [|split]].
  - apply Forall_forall. by intros w [? _]%list_elem_of_filter.
  - apply sublist_filter.
  - intros w Hw. rewrite list_filter_filter. f_equal.
    apply list_filter_iff. intros v. split; [tauto|]. by intros <-.
  - unfold preprocess. simpl. by rewrite Hstem.
Qed.

Lemma get_keywords_tokens_witness :
  root_stem "" = "" ∧
  Forall is_keyword (get_keywords root_stem "doa yang makan doa") ∧
  get_keywords root_stem "" = [].
Proof.
  split; [reflexivity|].
  pose proof (get_keywords_tokens root_stem "doa yang makan doa" eq_refl) as H.
  simpl in H. split; [apply H | apply H].
Defined.

(** ** C7: what the score depends on *)

(** C7, counterexample. Against the text "makan minum" the keyword lists
    [kan; min] and [min; kan] denote the same set, and so do [kan] and
    [kan; kan]; the phrase bonus is given to the first list of each pair
    only. *)
Lemma score_depends_on_order_and_multiplicity :
  ((list_to_set ["kan"; "min"] : gset string) = list_to_set ["min"; "kan"] ∧
   calculate_match_score root_stem ["kan"; "min"] "makan minum" None
   ≠ calculate_match_score root_stem ["min"; "kan"] "makan minum" None) ∧
  ((list_to_set ["kan"] : gset string) = list_to_set ["kan"; "kan"] ∧
   calculate_match_score root_stem ["kan"] "makan minum" None
   ≠ calculate_match_score root_stem ["kan"; "kan"] "makan minum" None).
Proof.
  split; (split; [vm_compute; reflexivity | vm_compute; discriminate]).
Qed.

(** C7, as amended. The score is a function of the query keyword list, the
    target text and the keyword phrases.  Two keyword lists that denote
    the same set get the same score against the same target whenever
    their space-joined strings both occur or both do not occur in the
    stemmed target text; order and multiplicity matter only through that
    phrase test. *)
Theorem score_determined_by_set_and_phrase (stem : string -> string)
    (q1 q2 : list string) (target_text : string)
    (target_keywords : option (list string)) :
  (list_to_set q1 : gset string) = list_to_set q2 →
  contains (join q1) (preprocess stem target_text)
  = contains (join q2) (preprocess stem target_text) →
  calculate_match_score stem q1 target_text target_keywords
  = calculate_match_score stem q2 target_text target_keywords.
Proof.
  intros Hset Hphrase. unfold calculate_match_score, phrase_bonus.
  by rewrite Hset, Hphrase.
Qed.

Lemma score_determined_by_set_and_phrase_witness :
  (list_to_set ["doa"; "makan"] : gset string) = list_to_set ["makan"; "doa"; "doa"] ∧
  contains (join ["doa"; "makan"]) (preprocess root_stem "doa sebelum makan")
  = contains (join ["makan"; "doa"; "doa"]) (preprocess root_stem "doa sebelum makan") ∧
  calculate_match_score root_stem ["doa"; "makan"] "doa sebelum makan" None
  = calculate_match_score root_stem ["makan"; "doa"; "doa"] "doa sebelum makan" None.
Proof.
  assert ((list_to_set ["doa"; "makan"] : gset string)
          = list_to_set ["makan"; "doa"; "doa"]) as Hset
    by (vm_compute; reflexivity).
  assert (contains (join ["doa"; "makan"]) (preprocess root_stem "doa sebelum makan")
          = contains (join ["makan"; "doa"; "doa"])
              (preprocess root_stem "doa sebelum makan")) as Hphrase
    by (vm_compute; reflexivity).
  split; [exact Hset|]. split; [exact Hphrase|].
  exact (score_determined_by_set_and_phrase root_stem _ _ _ None Hset Hphrase).
Defined.

(** ** C8: intent detection *)

Example detect_intent_sample :
  detect_intent root_stem sample_intents "doa sebelum makan" =
  Some {| intent_name := "makan"; intent_type := "doa";
          intent_canonical_query := "doa sebelum makan"; intent_score := 2;
          matched_keywords := ["makan"; "sebelum makan"] |}.
Proof. vm_compute. reflexivity. Qed.

Section IntentFacts.

Variable stem : string -> string.
Variable query : string.

Local Abbreviation score_of := (trigger_score stem query).
Local Abbreviation step :=
  (intent_step stem (lower query) (list_to_set (get_keywords stem query))).

Lemma best_so_far_step (seen : list (string * intent_data))
    (st : option intent_match * Q) (entry : string * intent_data) :
  best_so_far score_of seen st → best_so_far score_of (seen ++ [entry]) (step st entry).
Proof.
  destruct st as [best_intent best_score], entry as [name intent].
  intros (H0 & Hle & Hbest). simpl in H0, Hle, Hbest.
  unfold step, intent_step.
  assert (score_of intent
          = (rule_score stem (lower query) (list_to_set (get_keywords stem query)) intent).1)
    as Hsc by reflexivity.
  destruct (rule_score stem (lower query) _ intent) as [sc matched_kws].
  simpl in Hsc. subst sc.
  destruct (Qltb best_score (score_of intent)) eqn:Hc.
  - apply Qltb_lt in Hc. split; [|split]; simpl.
    + eapply Qle_trans; [exact H0 | by apply Qlt_le_weak].
    + intros j e [Hj|[_ He]]%lookup_app_Some.
      * eapply Qle_trans; [by eapply Hle | by apply Qlt_le_weak].
      * apply list_lookup_singleton_Some in He as [_ <-]. apply Qle_refl.
    + split; [done|]. split; [by eapply Qle_lt_trans|].
      exists (length seen), intent. repeat split.
      * by rewrite lookup_app_r, Nat.sub_diag.
      * intros j e Hj He. rewrite lookup_app_l in He by done.
        eapply Qle_lt_trans; [by eapply Hle | done].
  - apply Qltb_ge in Hc. split; [|split]; simpl; [done| |].
    + intros j e [Hj|[_ He]]%lookup_app_Some; [by eapply Hle|].
      by apply list_lookup_singleton_Some in He as [_ <-].
    + destruct best_intent as [m|]; [|done].
      destruct Hbest as (Hm & Hpos & k & intent' & Hk & Hty & Hcq & Hs & Hbefore).
      split; [done|]. split; [done|].
      exists k, intent'. repeat split; try done.
      * by apply lookup_app_l_Some.
      * intros j e Hj He. apply (Hbefore j e Hj).
        apply lookup_lt_Some in Hk.
        by rewrite lookup_app_l in He by lia.
Qed.

Lemma best_so_far_fold (rules : list (string * intent_data)) :
  best_so_far score_of rules (fold_left step rules (None, 0%Q)).
Proof.
  induction rules as [|entry rules IH] using rev_ind.
  - split; [done|]. split; [|done]. intros j e. by rewrite lookup_nil.
  - rewrite fold_left_app. simpl. by apply best_so_far_step.
Qed.

End IntentFacts.

(** C8. The intent detector returns the rule with the highest accumulated
    trigger score; every rule before it in the table has a strictly lower
    score, so that the first rule wins a tie; the rule is returned only
    when its score is at least 0.5, and otherwise (every score below 0.5)
    nothing is returned.  The request handler takes the intent as strong
    exactly when an intent was returned with a score of at least 1.0: with
    such an intent it searches the corpus of the intent's type with the
    keywords of the canonical query, and adds a search of the other corpus
    with the keywords of the query when fewer than three results came
    back; with an intent of a lower score, or with none, it does no
    intent-based search. *)
Theorem detect_intent_best (stem : string -> string) (DOA_DATA HADIS_DATA : list item)
    (INTENTS : list (string * intent_data)) (query : string)
    (query_keywords : list string) :
  let score_of := trigger_score stem query in
  let intent := detect_intent stem INTENTS query in
  let routed := intent_search stem DOA_DATA HADIS_DATA intent query_keywords in
  match intent with
  | Some m =>
      ∃ k rule,
        INTENTS !! k = Some (intent_name m, rule) ∧
        intent_type m = type rule ∧
        intent_canonical_query m = canonical_query rule ∧
        intent_score m = score_of rule ∧
        (1 # 2 <= intent_score m)%Q ∧
        (∀ j e, INTENTS !! j = Some e → (score_of e.2 <= intent_score m)%Q) ∧
        (∀ j e, j < k → INTENTS !! j = Some e → (score_of e.2 < intent_score m)%Q)
  | None => ∀ j e, INTENTS !! j = Some e → (score_of e.2 < 1 # 2)%Q
  end ∧
  (strong_intent intent = true ↔ ∃ m, intent = Some m ∧ (1 <= intent_score m)%Q) ∧
  (strong_intent intent = false → routed = Return []) ∧
  match intent with
  | Some m =>
      let canonical_keywords := get_keywords stem (intent_canonical_query m) in
      ((1 <= intent_score m)%Q → intent_type m = "doa" →
       routed =
         (results ← search_doa stem DOA_DATA canonical_keywords 10;
          if length results <? 3
          then more ← search_hadis stem HADIS_DATA query_keywords 10;
               Return (results ++ more)
          else Return results)) ∧
      ((1 <= intent_score m)%Q → intent_type m ≠ "doa" →
       routed =
         (results ← search_hadis stem HADIS_DATA canonical_keywords 10;
          if length results <? 3
          then more ← search_doa stem DOA_DATA query_keywords 10;
               Return (results ++ more)
          else Return results)) ∧
      ((intent_score m < 1)%Q → routed = Return [])
  | None => routed = Return []
  end.
Proof.
  intros score_of intent routed. split; [|split; [|split]].
  - subst intent. unfold detect_intent.
    pose proof (best_so_far_fold stem query INTENTS) as H.
    destruct (fold_left _ INTENTS _) as [best_intent best_score].
    destruct H as (H0 & Hle & Hbest). simpl in H0, Hle, Hbest.
    destruct (Qltb best_score (1 # 2)) eqn:Hc; simpl.
    + apply Qltb_lt in Hc. intros j e He.
      eapply Qle_lt_trans; [by eapply Hle | done].
    + apply Qltb_ge in Hc. destruct best_intent as [m|].
      * destruct Hbest as (Hm & Hpos & k & rule & Hk & Hty & Hcq & Hs & Hbefore).
        exists k, rule. repeat split; try done; rewrite Hm; [done|].
        intros j e He. by eapply Hle.
      * subst best_score. intros j e He.
        eapply Qle_lt_trans; [by eapply Hle | done].
  - unfold strong_intent. destruct intent as [m|].
    + rewrite negb_true_iff, Qltb_ge. split.
      * intros H. by exists m.
      * by intros (m' & [= <-] & H).
    + split; [done | by intros (m & [=] & _)].
  - intros Hweak. subst routed. unfold intent_search. destruct intent as [m|]; [|done].
    by rewrite Hweak.
  - subst routed. unfold intent_search, strong_intent.
    destruct intent as [m|]; [|done].
    split; [|split].
    + intros Hs Hty. apply Qltb_ge in Hs. rewrite Hs. cbn [negb].
      rewrite Hty. reflexivity.
    + intros Hs Hty. apply Qltb_ge in Hs. rewrite Hs. cbn [negb].
      destruct (String.eqb_spec (intent_type m) "doa") as [Heq|_]; [by destruct Hty|].
      reflexivity.
    + intros Hs. apply Qltb_lt in Hs. rewrite Hs. reflexivity.
Qed.

(** ** The request handler *)

Section ChatFacts.

Variable stem : string -> string.
Variable DOA_DATA HADIS_DATA : list item.
Variable INTENTS : list (string * intent_data).

(** The payload of a request that reaches the searches is composed from
    the deduplicated and sorted candidate pool. *)
Lemma search_and_respond_inv (query : string) (query_keywords : list string)
    (response : payload) :
  search_and_respond stem DOA_DATA HADIS_DATA INTENTS query query_keywords
  = Return response →
  ∃ pool, response = format_response (sorted_desc (deduplicate_by_id pool)) query
                       (detect_intent stem INTENTS query).
Proof.
  unfold search_and_respond.
  destruct (intent_search _ _ _ _ _) as [r1|e]; cbn [mbind res_bind]; [|done].
  destruct (general_search _ _ _ _ _) as [r2|e]; cbn [mbind res_bind]; [|done].
  intros [= <-]. by exists r2.
Qed.

Lemma search_doa_returns (query_keywords : list string) (top_k : Z) :
  Forall complete_doa DOA_DATA →
  ∃ rs, search_doa stem DOA_DATA query_keywords top_k = Return rs.
Proof.
  intros Hall. unfold search_doa.
  pose proof (search_doa_loop_spec stem query_keywords DOA_DATA []) as H.
  destruct (search_doa_loop _ _ _ _) as [rs|e]; [|done].
  cbn [mbind res_bind]. by eexists.
Qed.

Lemma search_hadis_returns (query_keywords : list string) (top_k : Z) :
  Forall complete_hadis HADIS_DATA →
  ∃ rs, search_hadis stem HADIS_DATA query_keywords top_k = Return rs.
Proof.
  intros Hall. unfold search_hadis.
  pose proof (search_hadis_loop_spec stem query_keywords HADIS_DATA []) as H.
  destruct (search_hadis_loop _ _ _ _) as [rs|e]; [|done].
  cbn [mbind res_bind]. by eexists.
Qed.

Lemma search_and_respond_returns (query : string) (query_keywords : list string) :
  Forall complete_doa DOA_DATA → Forall complete_hadis HADIS_DATA →
  ∃ response,
    search_and_respond stem DOA_DATA HADIS_DATA INTENTS query query_keywords
    = Return response.
Proof.
  intros Hdoa Hhadis.
  assert (∀ qk k, ∃ rs, search_doa stem DOA_DATA qk k = Return rs) as Sd
    by (intros; by apply search_doa_returns).
  assert (∀ qk k, ∃ rs, search_hadis stem HADIS_DATA qk k = Return rs) as Sh
    by (intros; by apply search_hadis_returns).
  assert (∀ intent, ∃ rs,
            intent_search stem DOA_DATA HADIS_DATA intent query_keywords = Return rs)
    as Si.
  { intros intent. unfold intent_search. destruct intent as [m|]; [|by eexists].
    destruct (strong_intent (Some m)); [|by eexists].
    destruct (String.eqb (intent_type m) "doa").
    - destruct (Sd (get_keywords stem (intent_canonical_query m)) 10%Z) as [rs ->].
      cbn [mbind res_bind]. destruct (length rs <? 3); [|by eexists].
      destruct (Sh query_keywords 10%Z) as [more ->]. by eexists.
    - destruct (Sh (get_keywords stem (intent_canonical_query m)) 10%Z) as [rs ->].
      cbn [mbind res_bind]. destruct (length rs <? 3); [|by eexists].
      destruct (Sd query_keywords 10%Z) as [more ->]. by eexists. }
  unfold search_and_respond.
  destruct (Si (detect_intent stem INTENTS query)) as [r1 ->]. cbn [mbind res_bind].
  unfold general_search. destruct (length r1 <? 2).
  - destruct (Sd query_keywords 10%Z) as [d ->].
    destruct (Sh query_keywords 10%Z) as [h ->]. by eexists.
  - by eexists.
Qed.

End ChatFacts.

Lemma format_response_not_error (results : list result) (query : string)
    (intent : option intent_match) (message : string) :
  format_response results query intent ≠ ERROR message.
Proof. by destruct results. Qed.

Lemma format_response_ok_inv (results : list result) (query : string)
    (intent : option intent_match) (message : string) (shown : list result)
    (counts : summary) :
  format_response results query intent = OK message shown counts →
  shown = take 3 results ∧ total counts = length results ∧
  showing counts = Nat.min 3 (length results).
Proof. destruct results; [done|]. by intros [= <- <- <-]. Qed.

(** An [OK] answer of the handler shows at most three results, and its
    [total] is the length of the deduplicated candidate pool. *)
Lemma chat_ok_summary (stem : string -> string) (DOA_DATA HADIS_DATA : list item)
    (INTENTS : list (string * intent_data)) (w : world) (raw_query : string)
    (lat lng : option string) (message : string) (shown : list result)
    (counts : summary) :
  chat stem DOA_DATA HADIS_DATA INTENTS w raw_query lat lng = OK message shown counts →
  ∃ pool,
    shown = take 3 (sorted_desc (deduplicate_by_id pool)) ∧
    length shown ≤ 3 ∧
    total counts = length (deduplicate_by_id pool) ∧
    showing counts = Nat.min 3 (total counts).
Proof.
  unfold chat.
  destruct (String.eqb _ _); [done|].
  destruct (bool_decide _); [done|].
  destruct (get_keywords stem (normalize raw_query)) as [|kw kws] eqn:Hkw; [done|].
  destruct (search_and_respond _ _ _ _ _ _) as [response|e] eqn:Hs; [|done].
  intros ->. apply search_and_respond_inv in Hs as [pool Hs]. symmetry in Hs.
  apply format_response_ok_inv in Hs as (-> & Ht & Hsh).
  rewrite sorted_desc_length in Ht, Hsh.
  exists pool. repeat split; [rewrite length_take; lia | done | by rewrite Ht].
Qed.

(** ** C9: running the pipeline twice *)

(** C9, counterexample. The query "halo" is answered with the greeting of
    the hour: a run at ten and a run at noon give different messages. *)
Lemma greeting_changes_with_the_hour :
  chat root_stem sample_doa sample_hadis sample_intents morning "halo" None None
  ≠ chat root_stem sample_doa sample_hadis sample_intents noon "halo" None None.
Proof. vm_compute. discriminate. Qed.

(** C9, as amended. Two runs of the pipeline on the same query and the
    same corpora give the same payload whenever the time collaborator
    gives the same greeting in both runs, and in any case when the query
    is an ASCII text whose normalized form is not one of the greeting
    phrases, whatever the clock, the timezone service and the coordinates
    of the two requests: they are read for a greeting only. *)
Theorem chat_repeatable (stem : string -> string) (DOA_DATA HADIS_DATA : list item)
    (INTENTS : list (string * intent_data)) (w1 w2 : world) (raw_query : string)
    (lat1 lng1 lat2 lng2 : option string) :
  get_time_based_greeting w1 lat1 lng1 = get_time_based_greeting w2 lat2 lng2
  ∨ (is_ascii raw_query = true ∧ normalize raw_query ∉ greetings) →
  chat stem DOA_DATA HADIS_DATA INTENTS w1 raw_query lat1 lng1
  = chat stem DOA_DATA HADIS_DATA INTENTS w2 raw_query lat2 lng2.
Proof.
  intros H. unfold chat.
  destruct (String.eqb _ _); [done|].
  destruct (bool_decide (normalize raw_query ∈ greetings)) eqn:Hg; [|done].
  apply bool_decide_eq_true in Hg. destruct H as [->|[_ H]]; done.
Qed.

Lemma chat_repeatable_witness :
  (get_time_based_greeting morning None None
   = get_time_based_greeting evening_in_tokyo (Some "35.68") (Some "139.69")
   ∨ (is_ascii "Doa  sebelum makan" = true ∧ normalize "Doa  sebelum makan" ∉ greetings)) ∧
  chat root_stem sample_doa sample_hadis sample_intents morning
       "Doa  sebelum makan" None None
  = chat root_stem sample_doa sample_hadis sample_intents evening_in_tokyo
         "Doa  sebelum makan" (Some "35.68") (Some "139.69").
Proof.
  assert (is_ascii "Doa  sebelum makan" = true ∧ normalize "Doa  sebelum makan" ∉ greetings)
    as H by (split; [reflexivity | apply (bool_decide_unpack _); vm_compute; exact I]).
  split; [by right|].
  apply (chat_repeatable root_stem sample_doa sample_hadis sample_intents
           morning evening_in_tokyo).
  by right.
Defined.

(** ** C10: items with missing fields *)

Example chat_skips_item_without_id :
  ∃ message,
    chat root_stem (doa_without_id :: sample_doa) sample_hadis [] morning
         "makan" None None
    = OK message
         [doa_result root_stem ["makan"] (doa_item "d1" "Doa Sebelum Makan" "berkah rezeki");
          doa_result root_stem ["makan"] (doa_item "d2" "Doa Sesudah Makan" "puji syukur");
          hadis_result root_stem ["makan"]
            (hadis_item "h1" "Adab Makan" "makan tangan kanan" ["adab makan"])]
         {| total := 3; doa_count := 2; hadis_count := 1; showing := 3 |}.
Proof. eexists. vm_compute. reflexivity. Qed.

(** C10, counterexample. A doa without its [judul] key makes the search
    raise [KeyError]; the handler answers the request with the [ERROR]
    payload. *)
Lemma item_without_judul_gives_error :
  chat root_stem (doa_without_judul :: sample_doa) sample_hadis sample_intents morning
       "makan" None None
  = ERROR "Maaf, terjadi kesalahan server üòî".
Proof. vm_compute. reflexivity. Qed.

(** C10, as amended. In corpora whose items carry the text fields the
    searches index ([judul] and [arti] for a doa, [tema] and [arti] for a
    hadis) no item makes the request return the [ERROR] payload: an item
    without [latin] or [kata_kunci] is scored with the empty default, and
    an item without identifier, or with an empty one, is dropped by the
    deduplication, so that every result shown carries a non-empty
    identifier. *)
Theorem chat_tolerates_missing_id (stem : string -> string)
    (DOA_DATA HADIS_DATA : list item) (INTENTS : list (string * intent_data))
    (w : world) (raw_query : string) (lat lng : option string) :
  Forall complete_doa DOA_DATA → Forall complete_hadis HADIS_DATA →
  (∀ message,
     chat stem DOA_DATA HADIS_DATA INTENTS w raw_query lat lng ≠ ERROR message) ∧
  (∀ message shown counts,
     chat stem DOA_DATA HADIS_DATA INTENTS w raw_query lat lng = OK message shown counts →
     Forall has_id shown).
Proof.
  intros Hdoa Hhadis. split.
  - intros message. unfold chat.
    destruct (String.eqb _ _); [done|].
    destruct (bool_decide _); [done|].
    destruct (get_keywords stem (normalize raw_query)) as [|kw kws] eqn:Hkw; [done|].
    destruct (search_and_respond_returns stem DOA_DATA HADIS_DATA INTENTS
                (normalize raw_query) (kw :: kws) Hdoa Hhadis) as [response Hs].
    rewrite Hs. apply search_and_respond_inv in Hs as [pool ->].
    apply format_response_not_error.
  - intros message shown counts Hok.
    apply chat_ok_summary in Hok as (pool & -> & _).
    apply Forall_take, Forall_forall. intros r Hr.
    apply (proj1 (sorted_desc_elem_of _ _)) in Hr.
    apply deduplicate_by_id_elem_of in Hr as (i & pre & post & _ & Hi & Ht & _).
    by exists i.
Qed.

Lemma chat_tolerates_missing_id_witness :
  Forall complete_doa (doa_without_id :: sample_doa) ∧
  Forall complete_hadis sample_hadis ∧
  ∀ message,
    chat root_stem (doa_without_id :: sample_doa) sample_hadis sample_intents morning
         "makan" None None ≠ ERROR message.
Proof.
  assert (Forall complete_doa (doa_without_id :: sample_doa)) as Hdoa
    by (repeat constructor; simpl; eauto).
  assert (Forall complete_hadis sample_hadis) as Hhadis
    by (repeat constructor; simpl; eauto).
  split; [exact Hdoa|]. split; [exact Hhadis|].
  apply (chat_tolerates_missing_id root_stem _ _ sample_intents morning "makan" None None
           Hdoa Hhadis).
Defined.

(** * Further properties of the engine *)

(** ** The match score *)

Lemma append_nil_r (s : string) : s +:+ "" = s.
Proof. induction s as [|c s IH]; [done|]. by rewrite append_cons, IH. Qed.

Lemma append_assoc (s t u : string) : (s +:+ t) +:+ u = s +:+ t +:+ u.
Proof. induction s as [|c s IH]; [done|]. by rewrite !append_cons, IH. Qed.

Lemma contains_refl (s : string) : contains s s = true.
Proof. apply contains_spec. exists "", "". by rewrite append_nil, append_nil_r. Qed.

Lemma round_half_even_exact (a : Z) (x : Q) :
  (x == inject_Z a)%Q → round_half_even x = a.
Proof.
  intros Hx.
  assert (a ≤ round_half_even x ≤ a)%Z; [|lia].
  apply round_half_even_bounds; rewrite Hx; apply Qle_refl.
Qed.

Lemma elem_of_collect_target_kw (stem : string -> string) (kws : list string) (w : string) :
  w ∈ collect_target_kw stem kws ↔ ∃ kw, kw ∈ kws ∧ w ∈ get_keywords stem kw.
Proof.
  unfold collect_target_kw.
  assert (∀ acc : gset string,
            w ∈ fold_left (fun acc kw => acc ∪ list_to_set (get_keywords stem kw)) kws acc
            ↔ w ∈ acc ∨ ∃ kw, kw ∈ kws ∧ w ∈ get_keywords stem kw) as H.
  { induction kws as [|kw kws IH]; intros acc; simpl.
    - split; [by left|]. intros [?|(kw & Hkw%elem_of_nil & _)]; done.
    - rewrite IH, elem_of_union, elem_of_list_to_set. split.
      + intros [[?|?]|(kw' & ? & ?)]; [by left | right; exists kw | right; exists kw'];
          (split; [|done]); [by left | by right].
      + intros [?|(kw' & [->|?]%elem_of_cons & ?)];
          [by left; left | by left; right | right; by exists kw']. }
  rewrite H. split; [|by right]. intros [Hin|?]; [|done]. by apply elem_of_empty in Hin.
Qed.

(** X1. Every query keyword is a word of the target text: the score is 1. *)
Theorem full_overlap_scores_one (stem : string -> string) (query_keywords : list string)
    (target_text : string) (target_keywords : option (list string)) :
  query_keywords ≠ [] →
  (∀ w, w ∈ query_keywords → w ∈ split (preprocess stem target_text)) →
  (calculate_match_score stem query_keywords target_text target_keywords == 1)%Q.
Proof.
  intros Hne Hsub. unfold calculate_match_score.
  set (query_set := list_to_set query_keywords : gset string).
  set (target_words := list_to_set (split (preprocess stem target_text)) : gset string).
  rewrite decide_False by (intros Hz; apply Hne; by apply size_list_to_set_0).
  assert (query_set ∩ target_words = query_set) as Hcap.
  { apply set_eq. intros w. rewrite elem_of_intersection. unfold query_set, target_words.
    rewrite !elem_of_list_to_set. split; [tauto|]. intros Hw. split; [done | by apply Hsub]. }
  assert (base_score query_set target_words == 1)%Q as Hbase.
  { unfold base_score. rewrite Hcap. apply Qmult_inv_r.
    unfold Q_of_nat, Qeq. simpl. rewrite Z.mul_1_r.
    intros Hz. apply (f_equal Z.to_nat) in Hz. rewrite Nat2Z.id in Hz.
    by apply size_list_to_set_0 in Hz. }
  set (t := (base_score _ _ + _ + _ + _)%Q).
  assert (1 <= t)%Q as Ht.
  { unfold t. rewrite Hbase.
    pose proof (keyword_bonus_nonneg stem query_set target_keywords).
    pose proof (phrase_bonus_nonneg stem query_keywords target_text).
    pose proof (partial_bonus_nonneg query_set target_words).
    rewrite <- !Qplus_assoc. rewrite <- (Qplus_0_r 1) at 1.
    apply Qplus_le_compat; [apply Qle_refl|].
    apply Qadd_nonneg; [done|]. by apply Qadd_nonneg. }
  unfold round3. rewrite (round_half_even_exact 1000); [reflexivity|].
  rewrite (Q.min_r _ _ Ht). reflexivity.
Qed.

Lemma full_overlap_scores_one_witness :
  ["doa"; "makan"] ≠ [] ∧
  (calculate_match_score root_stem ["doa"; "makan"] "Doa Sebelum Makan" None == 1)%Q.
Proof.
  assert (["doa"; "makan"] ≠ []) as Hne by discriminate.
  split; [exact Hne|].
  apply (full_overlap_scores_one root_stem ["doa"; "makan"] "Doa Sebelum Makan" None Hne).
  intros w Hw. apply (bool_decide_unpack _).
  apply elem_of_cons in Hw as [->|Hw]; [vm_compute; exact I|].
  apply elem_of_cons in Hw as [->|Hw]; [vm_compute; exact I|].
  by apply elem_of_nil in Hw.
Defined.

Lemma round3_zero (x : Q) : (x == 0)%Q → (round3 x == 0)%Q.
Proof.
  intros Hx. unfold round3. rewrite (round_half_even_exact 0); [reflexivity|].
  rewrite Hx. reflexivity.
Qed.

(** X2. No word in common, no keyword-phrase hit, no phrase occurrence and no
    partial match: the score is 0. *)
Theorem no_signal_scores_zero (stem : string -> string) (query_keywords : list string)
    (target_text : string) (target_keywords : option (list string)) :
  (∀ w, w ∈ query_keywords → w ∉ split (preprocess stem target_text)) →
  (∀ kws w kw, target_keywords = Some kws → w ∈ query_keywords → kw ∈ kws →
               w ∉ get_keywords stem kw) →
  contains (join query_keywords) (preprocess stem target_text) = false →
  (∀ w, w ∈ query_keywords →
        ¬ qualifying (list_to_set (split (preprocess stem target_text))) w) →
  (calculate_match_score stem query_keywords target_text target_keywords == 0)%Q.
Proof.
  intros Hwords Hkws Hphrase Hpartial. unfold calculate_match_score.
  set (query_set := list_to_set query_keywords : gset string).
  set (target_words := list_to_set (split (preprocess stem target_text)) : gset string).
  destruct (decide (size query_set = 0)); [reflexivity|].
  apply round3_zero.
  assert (base_score query_set target_words == 0)%Q as ->.
  { unfold base_score.
    replace (query_set ∩ target_words) with (∅ : gset string); [reflexivity|].
    symmetry. apply set_eq. intros w.
    rewrite elem_of_intersection. unfold query_set, target_words.
    rewrite !elem_of_list_to_set. split; [|by intros ?%elem_of_empty].
    intros [Hq Ht]. by destruct (Hwords w Hq). }
  assert (keyword_bonus stem query_set target_keywords == 0)%Q as ->.
  { unfold keyword_bonus. destruct target_keywords as [[|kw kws]|]; try reflexivity.
    replace (query_set ∩ collect_target_kw stem (kw :: kws)) with (∅ : gset string);
      [reflexivity|].
    symmetry. apply set_eq. intros w.
    rewrite elem_of_intersection, elem_of_collect_target_kw. unfold query_set.
    rewrite elem_of_list_to_set. split; [|by intros ?%elem_of_empty].
    intros [Hq (kw' & Hkw' & Hw)]. by destruct (Hkws (kw :: kws) w kw' eq_refl Hq Hkw'). }
  assert (phrase_bonus stem query_keywords target_text == 0)%Q as ->.
  { unfold phrase_bonus. by rewrite Hphrase. }
  assert (partial_bonus query_set target_words == 0)%Q as ->.
  { rewrite partial_bonus_per_query_keyword_aux.
    replace (filter (qualifying target_words) query_set) with (∅ : gset string);
      [reflexivity|].
    symmetry. apply set_eq. intros w. rewrite elem_of_filter. unfold query_set.
    rewrite elem_of_list_to_set. split; [|by intros ?%elem_of_empty].
    intros [Hq Hw]. by destruct (Hpartial w Hw). }
  reflexivity.
Qed.

Lemma no_signal_scores_zero_witness :
  (calculate_match_score root_stem ["puasa"] "Doa Sebelum Makan" (Some ["adab makan"]) == 0)%Q.
Proof.
  apply (no_signal_scores_zero root_stem ["puasa"] "Doa Sebelum Makan" (Some ["adab makan"])).
  - intros w ->%list_elem_of_singleton. apply (bool_decide_unpack _). vm_compute. exact I.
  - intros kws w kw [= <-] ->%list_elem_of_singleton ->%list_elem_of_singleton.
    apply (bool_decide_unpack _). vm_compute. exact I.
  - vm_compute. reflexivity.
  - intros w ->%list_elem_of_singleton. apply (bool_decide_unpack _). vm_compute. exact I.
Defined.

(** X3. A query keyword of four characters or more that is a word of the target
    earns the partial bonus on top of the overlap. *)
Theorem exact_match_earns_partial_bonus (query_set target_words : gset string) :
  ((1 # 10) * Q_of_nat (size (filter (fun w => 4 ≤ String.length w)
                                     (query_set ∩ target_words)))
   <= partial_bonus query_set target_words)%Q.
Proof.
  rewrite partial_bonus_per_query_keyword_aux.
  apply Qmult_le_l; [done|]. unfold Q_of_nat. rewrite <- Zle_Qle.
  apply Nat2Z.inj_le, subseteq_size. intros w.
  rewrite !elem_of_filter, elem_of_intersection. intros (Hlen & Hq & Ht).
  split; [|done]. exists w. split; [done|].
  unfold partial_match. rewrite contains_refl. tauto.
Qed.

(** ** Intent detection *)

Section TriggerFacts.

Variable stem : string -> string.
Variable query_lower : string.
Variable query_keywords : gset string.

Local Abbreviation exact := (exact_trigger query_lower).
Local Abbreviation stemmed := (stem_trigger stem query_lower query_keywords).
Local Abbreviation matched := (matched_trigger stem query_lower query_keywords).

Lemma existsb_Exists {A : Type} (P : A → Prop) `{!∀ x, Decision (P x)} (l : list A) :
  existsb (fun x => bool_decide (P x)) l = bool_decide (Exists P l).
Proof.
  induction l as [|x l IH]; cbn [existsb].
  - symmetry. apply bool_decide_eq_false. by intros ?%Exists_nil.
  - rewrite IH. destruct (decide (P x)) as [Hx|Hx].
    + rewrite (bool_decide_eq_true_2 _ Hx). symmetry.
      apply bool_decide_eq_true. by apply Exists_cons_hd.
    + rewrite (bool_decide_eq_false_2 _ Hx). simpl.
      apply bool_decide_ext. rewrite Exists_cons. tauto.
Qed.

Lemma rule_step_fold (kws : list string) (s0 : Q) (m0 : list string) :
  ∃ s, fold_left (rule_step stem query_lower query_keywords) kws (s0, m0)
       = (s, m0 ++ filter matched kws) ∧
       (s == s0 + Q_of_nat (length (filter exact kws))
             + (1 # 2) * Q_of_nat (length (filter stemmed kws)))%Q.
Proof.
  revert s0 m0. induction kws as [|kw kws IH]; intros s0 m0;
    cbn [fold_left rule_step].
  - exists s0. split; [by rewrite app_nil_r|]. unfold Q_of_nat. simpl. ring.
  - rewrite !filter_cons. rewrite existsb_Exists.
    destruct (decide (exact kw)) as [He|He].
    + unfold exact_trigger in He. rewrite He.
      rewrite (decide_True (P := matched kw)) by (by left).
      rewrite (decide_False (P := stemmed kw)) by (by intros [? _]).
      destruct (IH (s0 + 1)%Q (m0 ++ [kw])) as (s & -> & Hs).
      exists s. split; [by rewrite <- app_assoc|].
      rewrite Hs. cbn [length]. rewrite Q_of_nat_S. ring.
    + assert (contains (lower kw) query_lower = false) as ->
        by (by apply not_true_is_false).
      destruct (decide (Exists (fun w => w ∈ query_keywords) (get_keywords stem kw)))
        as [Hs|Hs].
      * rewrite (bool_decide_eq_true_2 _ Hs).
        rewrite (decide_True (P := matched kw)) by (by right).
        rewrite (decide_True (P := stemmed kw)) by done.
        destruct (IH (s0 + (1 # 2))%Q (m0 ++ [kw])) as (s & -> & Hs').
        exists s. split; [by rewrite <- app_assoc|].
        rewrite Hs'. cbn [length]. rewrite Q_of_nat_S. ring.
      * rewrite (bool_decide_eq_false_2 _ Hs).
        rewrite (decide_False (P := matched kw)) by (by intros [?|[_ ?]]).
        rewrite (decide_False (P := stemmed kw)) by (by intros [_ ?]).
        apply IH.
Qed.

Lemma matched_count (kws : list string) :
  length (filter matched kws)
  = length (filter exact kws) + length (filter stemmed kws).
Proof.
  induction kws as [|kw kws IH]; [done|]. rewrite !filter_cons.
  destruct (decide (exact kw)) as [He|He].
  - rewrite (decide_True (P := matched kw)) by (by left).
    rewrite (decide_False (P := stemmed kw)) by (by intros [? _]).
    simpl. by rewrite IH.
  - destruct (decide (stemmed kw)) as [Hs|Hs].
    + rewrite (decide_True (P := matched kw)) by (by right).
      simpl. rewrite IH. lia.
    + rewrite (decide_False (P := matched kw)) by (by intros [?|?]).
      exact IH.
Qed.

End TriggerFacts.

Lemma rule_score_spec (stem : string -> string) (query_lower : string)
    (query_keywords : gset string) (rule : intent_data) :
  ∃ s, rule_score stem query_lower query_keywords rule
       = (s, filter (matched_trigger stem query_lower query_keywords) (keywords rule)) ∧
       (s == Q_of_nat (length (filter (exact_trigger query_lower) (keywords rule)))
             + (1 # 2) * Q_of_nat (length (filter (stem_trigger stem query_lower query_keywords)
                                                  (keywords rule))))%Q.
Proof.
  unfold rule_score.
  destruct (rule_step_fold stem query_lower query_keywords (keywords rule) 0 [])
    as (s & -> & Hs).
  exists s. split; [done|]. rewrite Hs. ring.
Qed.

(** X5. The score of a rule counts 1 for every trigger phrase that occurs in
    the lowercased query and 0.5 for every other trigger phrase one of
    whose keywords is a keyword of the query; the matched triggers are
    those phrases, in the order of the rule. *)
Theorem rule_score_counts (stem : string -> string) (query_lower : string)
    (query_keywords : gset string) (rule : intent_data) :
  let '(score, matched_kws) := rule_score stem query_lower query_keywords rule in
  matched_kws = filter (matched_trigger stem query_lower query_keywords) (keywords rule) ∧
  (score == Q_of_nat (length (filter (exact_trigger query_lower) (keywords rule)))
            + (1 # 2) * Q_of_nat (length (filter (stem_trigger stem query_lower query_keywords)
                                                 (keywords rule))))%Q.
Proof.
  destruct (rule_score_spec stem query_lower query_keywords rule) as (s & -> & Hs).
  by split.
Qed.

Lemma half_points_small (a b : nat) :
  (Q_of_nat a + (1 # 2) * Q_of_nat b < 1 # 2)%Q → a = 0 ∧ b = 0.
Proof. unfold Q_of_nat, Qlt, Qplus, Qmult, inject_Z. simpl. lia. Qed.

Lemma half_points_large (a b : nat) :
  (1 # 2 <= Q_of_nat a + (1 # 2) * Q_of_nat b)%Q → 1 ≤ a + b.
Proof. unfold Q_of_nat, Qle, Qplus, Qmult, inject_Z. simpl. lia. Qed.

Section IntentTableFacts.

Variable stem : string -> string.
Variable query : string.

Local Abbreviation step :=
  (intent_step stem (lower query) (list_to_set (get_keywords stem query))).

Lemma best_from_table_step (seen : list (string * intent_data))
    (st : option intent_match * Q) (entry : string * intent_data) :
  best_from_table stem query seen st →
  best_from_table stem query (seen ++ [entry]) (step st entry).
Proof.
  destruct st as [best_intent best_score], entry as [name rule].
  unfold best_from_table, intent_step. cbn [fst snd]. intros Hbest.
  destruct (rule_score stem (lower query) _ rule) as [sc mk] eqn:Hrule.
  destruct (Qltb best_score sc); cbn [fst snd].
  - split; [done|]. exists rule. cbn. repeat split; try done.
    apply elem_of_app. right. by apply list_elem_of_singleton.
  - destruct best_intent as [m|]; [|done].
    destruct Hbest as (Hm & rule' & Hin & Hty & Hcq & Hrs).
    split; [done|]. exists rule'. repeat split; try done.
    apply elem_of_app. by left.
Qed.

Lemma best_from_table_fold (rules : list (string * intent_data)) :
  best_from_table stem query rules (fold_left step rules (None, 0%Q)).
Proof.
  induction rules as [|entry rules IH] using rev_ind; [done|].
  rewrite fold_left_app. by apply best_from_table_step.
Qed.

End IntentTableFacts.

(** X6. The intent returned carries the name, type and canonical query of a
    rule of the table and, as matched keywords, the trigger phrases of
    that rule that the query matches, of which there is at least one;
    nothing is returned exactly when no trigger phrase of any rule
    matches. *)
Theorem detect_intent_matched_triggers (stem : string -> string)
    (INTENTS : list (string * intent_data)) (query : string) :
  let matches := matched_trigger stem (lower query)
                   (list_to_set (get_keywords stem query)) in
  match detect_intent stem INTENTS query with
  | Some m =>
      ∃ rule,
        (intent_name m, rule) ∈ INTENTS ∧
        intent_type m = type rule ∧
        intent_canonical_query m = canonical_query rule ∧
        matched_keywords m = filter matches (keywords rule) ∧
        matched_keywords m ≠ []
  | None =>
      ∀ name rule, (name, rule) ∈ INTENTS → filter matches (keywords rule) = []
  end.
Proof.
  intros matches. unfold detect_intent.
  pose proof (best_from_table_fold stem query INTENTS) as Htable.
  pose proof (best_so_far_fold stem query INTENTS) as Hbest.
  destruct (fold_left _ INTENTS _) as [best_intent best_score].
  destruct Hbest as (H0 & Hle & Hbest). cbn [fst snd] in Hle, Hbest, H0.
  unfold best_from_table in Htable. cbn [fst snd] in Htable.
  assert ((best_score < 1 # 2)%Q →
          ∀ name rule, (name, rule) ∈ INTENTS → filter matches (keywords rule) = [])
    as Hnone.
  { intros Hlow name rule [j Hj]%list_elem_of_lookup_1.
    specialize (Hle j _ Hj). unfold trigger_score in Hle. cbn [snd] in Hle.
    destruct (rule_score_spec stem (lower query)
                (list_to_set (get_keywords stem query)) rule) as (s & Hrs & Hs).
    rewrite Hrs in Hle. cbn [fst] in Hle.
    assert (Q_of_nat (length (filter (exact_trigger (lower query)) (keywords rule)))
            + (1 # 2) * Q_of_nat (length (filter (stem_trigger stem (lower query)
                (list_to_set (get_keywords stem query))) (keywords rule))) < 1 # 2)%Q
      as [Ha Hb]%half_points_small.
    { rewrite <- Hs. by eapply Qle_lt_trans. }
    apply length_zero_iff_nil. unfold matches. by rewrite matched_count, Ha, Hb. }
  destruct (Qltb best_score (1 # 2)) eqn:Hc; cbn [negb].
  - apply Qltb_lt in Hc. by apply Hnone.
  - apply Qltb_ge in Hc. destruct best_intent as [m|].
    + destruct Htable as (Hm & rule & Hin & Hty & Hcq & Hrule).
      exists rule. repeat split; try done.
      * destruct (rule_score_spec stem (lower query)
                    (list_to_set (get_keywords stem query)) rule) as (s & Hrs & Hs).
        rewrite Hrs in Hrule. by injection Hrule as _ <-.
      * destruct (rule_score_spec stem (lower query)
                    (list_to_set (get_keywords stem query)) rule) as (s & Hrs & Hs).
        rewrite Hrs in Hrule. injection Hrule as Hsm <-.
        intros Hnil. apply (f_equal length) in Hnil.
        rewrite matched_count in Hnil. simpl in Hnil.
        assert (1 ≤ length (filter (exact_trigger (lower query)) (keywords rule))
                + length (filter (stem_trigger stem (lower query)
                    (list_to_set (get_keywords stem query))) (keywords rule))); [|lia].
        apply half_points_large. rewrite <- Hs, Hsm, Hm. exact Hc.
    + apply Hnone. rewrite Hbest. done.
Qed.

(** ** Corpus searches *)

Lemma best_of_sorted_slice (top_k : Z) (candidates : list result) :
  (0 ≤ top_k)%Z → best_of top_k candidates (slice_to top_k (sorted_desc candidates)).
Proof.
  intros Hk. rewrite slice_to_take by done.
  exists (drop (Z.to_nat top_k) (sorted_desc candidates)). split; [|split].
  - by rewrite take_drop, sorted_desc_perm.
  - intros r c Hr Hc.
    pose proof (sorted_desc_sorted candidates) as Hs.
    rewrite <- (take_drop (Z.to_nat top_k)) in Hs.
    by apply (StronglySorted_app_1_elem_of _ _ _ r c) in Hs.
  - by rewrite length_take, sorted_desc_length.
Qed.

(** X7. A search over a corpus whose items have their text fields returns the
    [top_k] best entries above the threshold: all of them when they are
    [top_k] or fewer, and otherwise [top_k] of them such that no entry left
    out scores higher than an entry returned. *)
Theorem search_returns_the_best (stem : string -> string) (DOA_DATA HADIS_DATA : list item)
    (query_keywords : list string) (top_k : Z) :
  (0 ≤ top_k)%Z → Forall complete_doa DOA_DATA → Forall complete_hadis HADIS_DATA →
  (∃ rs, search_doa stem DOA_DATA query_keywords top_k = Return rs ∧
         best_of top_k (filter above_threshold
                          (map (doa_result stem query_keywords) DOA_DATA)) rs) ∧
  (∃ rs, search_hadis stem HADIS_DATA query_keywords top_k = Return rs ∧
         best_of top_k (filter above_threshold
                          (map (hadis_result stem query_keywords) HADIS_DATA)) rs).
Proof.
  intros Hk Hdoa Hhadis. split.
  - unfold search_doa.
    pose proof (search_doa_loop_spec stem query_keywords DOA_DATA []) as H.
    destruct (search_doa_loop _ _ _ _) as [rs|e]; [|done].
    destruct H as [_ ->]. cbn [mbind res_bind mret res_ret]. eexists. split; [done|].
    by apply best_of_sorted_slice.
  - unfold search_hadis.
    pose proof (search_hadis_loop_spec stem query_keywords HADIS_DATA []) as H.
    destruct (search_hadis_loop _ _ _ _) as [rs|e]; [|done].
    destruct H as [_ ->]. cbn [mbind res_bind mret res_ret]. eexists. split; [done|].
    by apply best_of_sorted_slice.
Qed.

Lemma sample_doa_complete : Forall complete_doa sample_doa.
Proof. repeat constructor; simpl; eauto. Qed.

Lemma sample_hadis_complete : Forall complete_hadis sample_hadis.
Proof. repeat constructor; simpl; eauto. Qed.

Lemma search_returns_the_best_witness :
  (0 ≤ 1)%Z ∧ Forall complete_doa sample_doa ∧ Forall complete_hadis sample_hadis ∧
  ∃ rs, search_doa root_stem sample_doa ["makan"] 1 = Return rs ∧
        best_of 1 (filter above_threshold
                     (map (doa_result root_stem ["makan"]) sample_doa)) rs.
Proof.
  assert (0 ≤ 1)%Z as Hk by lia.
  split; [exact Hk|]. split; [exact sample_doa_complete|].
  split; [exact sample_hadis_complete|].
  exact (proj1 (search_returns_the_best root_stem sample_doa sample_hadis ["makan"] 1
                  Hk sample_doa_complete sample_hadis_complete)).
Defined.

Lemma filter_nil_Forall {A : Type} (P : A → Prop) `{!∀ x, Decision (P x)} (l : list A) :
  Forall (fun x => ¬ P x) l → filter P l = [].
Proof.
  induction 1 as [|x l Hx Hl IH]; [done|]. by rewrite filter_cons, decide_False.
Qed.

Lemma empty_query_not_above_threshold (stem : string -> string) (text : string)
    (tk : option (list string)) (d : item) :
  ¬ above_threshold {| score := calculate_match_score stem [] text tk; data := d |}.
Proof. unfold above_threshold. by cbn. Qed.

(** X8. With an empty keyword list no item passes the threshold: a search over
    a corpus whose items have their text fields returns the empty list,
    whatever [top_k] is. *)
Theorem search_without_keywords (stem : string -> string) (DOA_DATA HADIS_DATA : list item)
    (top_k : Z) :
  Forall complete_doa DOA_DATA → Forall complete_hadis HADIS_DATA →
  search_doa stem DOA_DATA [] top_k = Return [] ∧
  search_hadis stem HADIS_DATA [] top_k = Return [].
Proof.
  intros Hdoa Hhadis. split.
  - unfold search_doa.
    pose proof (search_doa_loop_spec stem [] DOA_DATA []) as H.
    destruct (search_doa_loop _ _ _ _) as [rs|e]; [|done].
    destruct H as [_ ->]. cbn [mbind res_bind mret res_ret].
    rewrite filter_nil_Forall;
      [unfold slice_to; cbn [sorted_desc]; by destruct (top_k <? 0)%Z, (Z.to_nat top_k)|].
    apply Forall_fmap, Forall_forall. intros d _.
    apply empty_query_not_above_threshold.
  - unfold search_hadis.
    pose proof (search_hadis_loop_spec stem [] HADIS_DATA []) as H.
    destruct (search_hadis_loop _ _ _ _) as [rs|e]; [|done].
    destruct H as [_ ->]. cbn [mbind res_bind mret res_ret].
    rewrite filter_nil_Forall;
      [unfold slice_to; cbn [sorted_desc]; by destruct (top_k <? 0)%Z, (Z.to_nat top_k)|].
    apply Forall_fmap, Forall_forall. intros d _.
    apply empty_query_not_above_threshold.
Qed.

Lemma search_without_keywords_witness :
  Forall complete_doa sample_doa ∧ Forall complete_hadis sample_hadis ∧
  search_doa root_stem sample_doa [] 10 = Return [] ∧
  search_hadis root_stem sample_hadis [] 10 = Return [].
Proof.
  split; [exact sample_doa_complete|]. split; [exact sample_hadis_complete|].
  exact (search_without_keywords root_stem sample_doa sample_hadis 10
           sample_doa_complete sample_hadis_complete).
Defined.

(** ** Deduplication and sorting *)

Lemma dedup_from_sublist (seen_ids : gset ident) (results : list result) :
  dedup_from seen_ids results `sublist_of` results.
Proof.
  revert seen_ids. induction results as [|r rest IH]; intros seen_ids; simpl; [done|].
  destruct (id (data r)) as [i|]; [|by apply sublist_cons].
  destruct (truthy i && bool_decide (i ∉ seen_ids));
    [by apply sublist_skip | by apply sublist_cons].
Qed.

(** X9. Deduplication only removes results: what it returns is a subsequence
    of its input, in the same order. *)
Theorem deduplicate_by_id_sublist (results : list result) :
  deduplicate_by_id results `sublist_of` results.
Proof.
  unfold deduplicate_by_id. rewrite dedup_loop_from, app_nil_l. apply dedup_from_sublist.
Qed.

Lemma dedup_from_distinct (seen_ids : gset ident) (results : list result) :
  Forall (fun r => ∃ i, id (data r) = Some i ∧ truthy i = true ∧ i ∉ seen_ids) results →
  NoDup (map (fun r => id (data r)) results) →
  dedup_from seen_ids results = results.
Proof.
  revert seen_ids. induction results as [|r rest IH]; intros seen_ids Hall Hnd; [done|].
  apply Forall_cons in Hall as [(i & Hi & Ht & Hs) Hall].
  rewrite fmap_cons in Hnd. apply NoDup_cons in Hnd as [Hr Hnd].
  simpl. rewrite Hi, Ht. rewrite bool_decide_eq_true_2 by done. simpl. f_equal.
  apply IH; [|done]. rewrite Forall_forall in Hall. apply Forall_forall.
  intros r' Hr'. destruct (Hall r' Hr') as (i' & Hi' & Ht' & Hs').
  exists i'. repeat split; try done.
  intros [Hin%elem_of_singleton|Hin]%elem_of_union; [|done]. subst i'.
  apply Hr. apply list_elem_of_fmap. exists r'. split; [congruence | done].
Qed.

(** X10. A list whose results carry non-empty, pairwise different identifiers
    is returned unchanged. *)
Theorem deduplicate_by_id_distinct (results : list result) :
  Forall has_id results →
  NoDup (map (fun r => id (data r)) results) →
  deduplicate_by_id results = results.
Proof.
  intros Hall Hnd. unfold deduplicate_by_id. rewrite dedup_loop_from, app_nil_l.
  apply dedup_from_distinct; [|done].
  eapply Forall_impl; [exact Hall|]. intros r (i & Hi & Ht). exists i.
  by repeat split.
Qed.

Lemma deduplicate_by_id_distinct_witness :
  Forall has_id sample_results ∧
  NoDup (map (fun r => id (data r)) sample_results) ∧
  deduplicate_by_id sample_results = sample_results.
Proof.
  assert (Forall has_id sample_results) as Hall.
  { repeat constructor; eexists; split; reflexivity. }
  assert (NoDup (map (fun r => id (data r)) sample_results)) as Hnd.
  { apply (bool_decide_unpack _). vm_compute. exact I. }
  split; [exact Hall|]. split; [exact Hnd|].
  exact (deduplicate_by_id_distinct sample_results Hall Hnd).
Defined.

Lemma deduplicate_by_id_has_id (results : list result) :
  Forall has_id (deduplicate_by_id results).
Proof.
  apply Forall_forall. intros r Hr.
  apply deduplicate_by_id_elem_of in Hr as (i & pre & post & _ & Hi & Ht & _).
  by exists i.
Qed.

(** X11. Deduplicating a deduplicated list changes nothing. *)
Theorem deduplicate_by_id_idempotent (results : list result) :
  deduplicate_by_id (deduplicate_by_id results) = deduplicate_by_id results.
Proof.
  unfold deduplicate_by_id at 1. rewrite dedup_loop_from, app_nil_l.
  apply dedup_from_distinct; [|apply deduplicate_by_id_nodup].
  eapply Forall_impl; [apply deduplicate_by_id_has_id|].
  intros r (i & Hi & Ht). exists i. by repeat split.
Qed.

Lemma insert_desc_head (r : result) (l : list result) :
  Forall (score_ge r) l → insert_desc r l = r :: l.
Proof.
  intros Hall. destruct l as [|r' l]; [done|]. simpl.
  apply Forall_cons in Hall as [Hr' _].
  by rewrite (proj2 (Qltb_ge _ _) Hr').
Qed.

(** Sorting a list that is already in non-increasing order of score
    returns it unchanged. *)
Lemma sorted_desc_of_sorted (results : list result) :
  non_increasing results → sorted_desc results = results.
Proof.
  intros Hs%strongly_sorted_non_increasing.
  induction Hs as [|r l Hl IH Hall]; [done|].
  simpl. rewrite IH. by apply insert_desc_head.
Qed.

Lemma sorted_desc_of_sorted_witness :
  non_increasing sample_results ∧ sorted_desc sample_results = sample_results.
Proof.
  assert (non_increasing sample_results) as Hs.
  { apply strongly_sorted_non_increasing. unfold sample_results.
    repeat constructor; unfold score_ge; simpl; unfold Qle; simpl; lia. }
  split; [exact Hs|]. exact (sorted_desc_of_sorted sample_results Hs).
Defined.

(** ** The request handler, continued *)

Lemma slice_to_subseteq {A : Type} (k : Z) (l : list A) : slice_to k l ⊆ l.
Proof. unfold slice_to. destruct (k <? 0)%Z; apply subseteq_take. Qed.

Lemma deduplicate_by_id_sublist_aux (results : list result) :
  deduplicate_by_id results `sublist_of` results.
Proof.
  unfold deduplicate_by_id. rewrite dedup_loop_from, app_nil_l. apply dedup_from_sublist.
Qed.

Section PoolFacts.

Variable stem : string -> string.
Variable DOA_DATA HADIS_DATA : list item.
Variable INTENTS : list (string * intent_data).

Local Abbreviation good := (candidate stem DOA_DATA HADIS_DATA).

Lemma search_doa_candidates (query_keywords : list string) (top_k : Z)
    (rs : list result) :
  search_doa stem DOA_DATA query_keywords top_k = Return rs → Forall good rs.
Proof.
  unfold search_doa.
  pose proof (search_doa_loop_spec stem query_keywords DOA_DATA []) as H.
  destruct (search_doa_loop _ _ _ _) as [rs'|e]; [|done].
  destruct H as [_ ->]. cbn [mbind res_bind mret res_ret]. intros [= <-].
  apply Forall_forall. intros r Hr%slice_to_subseteq.
  apply (proj1 (sorted_desc_elem_of _ _)) in Hr.
  apply list_elem_of_filter in Hr as [Ht (d & -> & Hd)%list_elem_of_fmap].
  split; [|done]. left. by exists query_keywords, d.
Qed.

Lemma search_hadis_candidates (query_keywords : list string) (top_k : Z)
    (rs : list result) :
  search_hadis stem HADIS_DATA query_keywords top_k = Return rs → Forall good rs.
Proof.
  unfold search_hadis.
  pose proof (search_hadis_loop_spec stem query_keywords HADIS_DATA []) as H.
  destruct (search_hadis_loop _ _ _ _) as [rs'|e]; [|done].
  destruct H as [_ ->]. cbn [mbind res_bind mret res_ret]. intros [= <-].
  apply Forall_forall. intros r Hr%slice_to_subseteq.
  apply (proj1 (sorted_desc_elem_of _ _)) in Hr.
  apply list_elem_of_filter in Hr as [Ht (d & -> & Hd)%list_elem_of_fmap].
  split; [|done]. right. by exists query_keywords, d.
Qed.

Lemma intent_search_candidates (intent : option intent_match)
    (query_keywords : list string) (rs : list result) :
  intent_search stem DOA_DATA HADIS_DATA intent query_keywords = Return rs →
  Forall good rs.
Proof.
  unfold intent_search. destruct intent as [m|]; [|by intros [= <-]].
  destruct (strong_intent (Some m)); [|by intros [= <-]].
  destruct (String.eqb (intent_type m) "doa").
  - destruct (search_doa _ _ _ _) as [r1|e] eqn:H1; [|done]. cbn [mbind res_bind].
    apply search_doa_candidates in H1.
    destruct (length r1 <? 3); [|by intros [= <-]].
    destruct (search_hadis _ _ _ _) as [r2|e] eqn:H2; [|done]. cbn [mbind res_bind].
    apply search_hadis_candidates in H2. intros [= <-]. by apply Forall_app.
  - destruct (search_hadis _ _ _ _) as [r1|e] eqn:H1; [|done]. cbn [mbind res_bind].
    apply search_hadis_candidates in H1.
    destruct (length r1 <? 3); [|by intros [= <-]].
    destruct (search_doa _ _ _ _) as [r2|e] eqn:H2; [|done]. cbn [mbind res_bind].
    apply search_doa_candidates in H2. intros [= <-]. by apply Forall_app.
Qed.

Lemma general_search_candidates (results : list result) (query_keywords : list string)
    (rs : list result) :
  Forall good results →
  general_search stem DOA_DATA HADIS_DATA results query_keywords = Return rs →
  Forall good rs.
Proof.
  intros Hres. unfold general_search. destruct (length results <? 2); [|by intros [= <-]].
  destruct (search_doa _ _ _ _) as [r1|e] eqn:H1; [|done]. cbn [mbind res_bind].
  destruct (search_hadis _ _ _ _) as [r2|e] eqn:H2; [|done]. cbn [mbind res_bind].
  apply search_doa_candidates in H1. apply search_hadis_candidates in H2.
  intros [= <-]. by apply Forall_app.
Qed.

(** The candidate pool of a request holds corpus entries above the
    threshold only. *)
Lemma search_and_respond_pool (query : string) (query_keywords : list string)
    (response : payload) :
  search_and_respond stem DOA_DATA HADIS_DATA INTENTS query query_keywords
  = Return response →
  ∃ pool, Forall good pool ∧
          response = format_response (sorted_desc (deduplicate_by_id pool)) query
                       (detect_intent stem INTENTS query).
Proof.
  unfold search_and_respond.
  destruct (intent_search _ _ _ _ _) as [r1|e] eqn:H1; cbn [mbind res_bind]; [|done].
  destruct (general_search _ _ _ _ _) as [r2|e] eqn:H2; cbn [mbind res_bind]; [|done].
  intros [= <-]. exists r2. split; [|done].
  eapply general_search_candidates; [|exact H2]. by eapply intent_search_candidates.
Qed.

Lemma chat_ok_pool (w : world) (raw_query : string) (lat lng : option string)
    (message : string) (shown : list result) (counts : summary) :
  chat stem DOA_DATA HADIS_DATA INTENTS w raw_query lat lng = OK message shown counts →
  ∃ pool, Forall good pool ∧
          format_response (sorted_desc (deduplicate_by_id pool)) (normalize raw_query)
            (detect_intent stem INTENTS (normalize raw_query))
          = OK message shown counts.
Proof.
  unfold chat.
  destruct (String.eqb _ _); [done|].
  destruct (bool_decide _); [done|].
  destruct (get_keywords stem (normalize raw_query)) as [|kw kws] eqn:Hkw; [done|].
  destruct (search_and_respond _ _ _ _ _ _) as [response|e] eqn:Hs; [|done].
  intros ->. apply search_and_respond_pool in Hs as (pool & Hpool & Hs).
  by exists pool.
Qed.

Lemma ranked_pool_candidates (pool : list result) :
  Forall good pool → Forall good (sorted_desc (deduplicate_by_id pool)).
Proof.
  intros Hpool. apply Forall_forall. intros r Hr.
  apply (proj1 (sorted_desc_elem_of _ _)) in Hr.
  rewrite Forall_forall in Hpool. apply Hpool.
  by apply (sublist_subseteq _ _ (deduplicate_by_id_sublist_aux pool)).
Qed.

End PoolFacts.

Lemma format_response_ok_counts (results : list result) (query : string)
    (intent : option intent_match) (message : string) (shown : list result)
    (counts : summary) :
  format_response results query intent = OK message shown counts →
  results ≠ [] ∧ shown = take 3 results ∧ total counts = length results ∧
  doa_count counts = length (List.filter (has_source "doa") results) ∧
  hadis_count counts = length (List.filter (has_source "hadis") results) ∧
  showing counts = Nat.min 3 (length results).
Proof. destruct results; [done|]. by intros [= <- <- <-]. Qed.

Lemma count_by_source (results : list result) :
  Forall (fun r => source_type (data r) = Some "doa" ∨ source_type (data r) = Some "hadis")
         results →
  length (List.filter (has_source "doa") results)
  + length (List.filter (has_source "hadis") results) = length results.
Proof.
  induction 1 as [|r l Hr Hl IH]; [done|]. cbn [List.filter].
  destruct (has_source "doa" r) eqn:Hd, (has_source "hadis" r) eqn:Hh;
    unfold has_source in Hd, Hh; simpl; try lia; exfalso.
  - apply bool_decide_eq_true in Hd, Hh. congruence.
  - apply bool_decide_eq_false in Hd, Hh. tauto.
Qed.

Lemma candidate_source (stem : string -> string) (DOA_DATA HADIS_DATA : list item)
    (r : result) :
  candidate stem DOA_DATA HADIS_DATA r →
  source_type (data r) = Some "doa" ∨ source_type (data r) = Some "hadis".
Proof. intros [[(qk & d & _ & ->)|(qk & d & _ & ->)] _]; [by left | by right]. Qed.

(** X13. Every result of an [OK] answer is the scored entry of an item of one
    of the corpora, with a score above 0.1, and there is at least one. *)
Theorem chat_shows_corpus_entries (stem : string -> string)
    (DOA_DATA HADIS_DATA : list item) (INTENTS : list (string * intent_data))
    (w : world) (raw_query : string) (lat lng : option string)
    (message : string) (shown : list result) (counts : summary) :
  chat stem DOA_DATA HADIS_DATA INTENTS w raw_query lat lng = OK message shown counts →
  shown ≠ [] ∧ Forall (candidate stem DOA_DATA HADIS_DATA) shown.
Proof.
  intros (pool & Hpool & Hok)%chat_ok_pool.
  apply format_response_ok_counts in Hok as (Hne & -> & _).
  split.
  - by destruct (sorted_desc (deduplicate_by_id pool)).
  - by apply Forall_take, ranked_pool_candidates.
Qed.

Lemma sample_chat_ok :
  ∃ message shown counts,
    chat root_stem sample_doa sample_hadis [] morning "makan" None None
    = OK message shown counts.
Proof. eexists _, _, _. vm_compute. reflexivity. Qed.

Lemma chat_shows_corpus_entries_witness :
  ∃ message shown counts,
    chat root_stem sample_doa sample_hadis [] morning "makan" None None
    = OK message shown counts ∧
    shown ≠ [] ∧ Forall (candidate root_stem sample_doa sample_hadis) shown.
Proof.
  destruct sample_chat_ok as (message & shown & counts & Hok).
  exists message, shown, counts. split; [exact Hok|].
  exact (chat_shows_corpus_entries root_stem sample_doa sample_hadis [] morning "makan"
           None None message shown counts Hok).
Defined.

(** X14. The results of an [OK] answer are the first three of the [total]
    deduplicated candidates listed in non-increasing order of score, no
    two of which carry the same identifier. *)
Theorem chat_shows_the_best (stem : string -> string)
    (DOA_DATA HADIS_DATA : list item) (INTENTS : list (string * intent_data))
    (w : world) (raw_query : string) (lat lng : option string)
    (message : string) (shown : list result) (counts : summary) :
  chat stem DOA_DATA HADIS_DATA INTENTS w raw_query lat lng = OK message shown counts →
  ∃ rest,
    total counts = length (shown ++ rest) ∧
    (length shown = 3 ∨ rest = []) ∧
    non_increasing (shown ++ rest) ∧
    NoDup (map (fun r => id (data r)) (shown ++ rest)) ∧
    Forall (candidate stem DOA_DATA HADIS_DATA) (shown ++ rest).
Proof.
  intros (pool & Hpool & Hok)%chat_ok_pool.
  apply format_response_ok_counts in Hok as (Hne & -> & Ht & _).
  set (ranked := sorted_desc (deduplicate_by_id pool)) in *.
  exists (drop 3 ranked). rewrite take_drop. repeat split.
  - done.
  - destruct (decide (3 ≤ length ranked)) as [Hlen|Hlen].
    + left. rewrite length_take. lia.
    + right. apply drop_ge. lia.
  - apply strongly_sorted_non_increasing, sorted_desc_sorted.
  - unfold ranked. rewrite sorted_desc_perm. apply deduplicate_by_id_nodup.
  - by apply ranked_pool_candidates.
Qed.

Lemma chat_shows_the_best_witness :
  ∃ message shown counts,
    chat root_stem sample_doa sample_hadis [] morning "makan" None None
    = OK message shown counts ∧
    ∃ rest, total counts = length (shown ++ rest) ∧ non_increasing (shown ++ rest).
Proof.
  destruct sample_chat_ok as (message & shown & counts & Hok).
  exists message, shown, counts. split; [exact Hok|].
  destruct (chat_shows_the_best root_stem sample_doa sample_hadis [] morning "makan"
              None None message shown counts Hok) as (rest & Ht & _ & Hs & _).
  exists rest. split; [exact Ht | exact Hs].
Defined.

(** X15. In an [OK] answer the doa and hadis counts add up to [total], and
    [showing] is the number of results attached, between 1 and 3. *)
Theorem chat_counts_add_up (stem : string -> string)
    (DOA_DATA HADIS_DATA : list item) (INTENTS : list (string * intent_data))
    (w : world) (raw_query : string) (lat lng : option string)
    (message : string) (shown : list result) (counts : summary) :
  chat stem DOA_DATA HADIS_DATA INTENTS w raw_query lat lng = OK message shown counts →
  doa_count counts + hadis_count counts = total counts ∧
  showing counts = length shown ∧
  1 ≤ showing counts ≤ 3.
Proof.
  intros (pool & Hpool & Hok)%chat_ok_pool.
  apply format_response_ok_counts in Hok as (Hne & -> & Ht & Hd & Hh & Hs).
  set (ranked := sorted_desc (deduplicate_by_id pool)) in *.
  assert (1 ≤ length ranked) by (destruct ranked; [done | simpl; lia]).
  split; [|split].
  - rewrite Ht, Hd, Hh. apply count_by_source.
    eapply Forall_impl; [by apply ranked_pool_candidates|].
    apply candidate_source.
  - rewrite Hs, length_take. done.
  - rewrite Hs. lia.
Qed.

Lemma chat_counts_add_up_witness :
  ∃ message shown counts,
    chat root_stem sample_doa sample_hadis [] morning "makan" None None
    = OK message shown counts ∧
    doa_count counts + hadis_count counts = total counts.
Proof.
  destruct sample_chat_ok as (message & shown & counts & Hok).
  exists message, shown, counts. split; [exact Hok|].
  exact (proj1 (chat_counts_add_up root_stem sample_doa sample_hadis [] morning "makan"
                  None None message shown counts Hok)).
Defined.

Lemma chat_not_error (stem : string -> string) (DOA_DATA HADIS_DATA : list item)
    (INTENTS : list (string * intent_data)) (w : world) (raw_query : string)
    (lat lng : option string) (message : string) :
  Forall complete_doa DOA_DATA → Forall complete_hadis HADIS_DATA →
  chat stem DOA_DATA HADIS_DATA INTENTS w raw_query lat lng ≠ ERROR message.
Proof.
  intros Hdoa Hhadis. unfold chat.
  destruct (String.eqb _ _); [done|].
  destruct (bool_decide _); [done|].
  destruct (get_keywords stem (normalize raw_query)) as [|kw kws] eqn:Hkw; [done|].
  destruct (search_and_respond_returns stem DOA_DATA HADIS_DATA INTENTS
              (normalize raw_query) (kw :: kws) Hdoa Hhadis) as [response Hs].
  rewrite Hs. apply search_and_respond_inv in Hs as [pool ->].
  apply format_response_not_error.
Qed.

(** X16. With both corpora empty no request is answered with results: the
    answer is never an [OK] payload, whatever the query, the rule table,
    the clock and the coordinates are. *)
Theorem chat_with_empty_corpora (stem : string -> string)
    (INTENTS : list (string * intent_data)) (w : world) (raw_query : string)
    (lat lng : option string) (message : string) (shown : list result)
    (counts : summary) :
  chat stem [] [] INTENTS w raw_query lat lng ≠ OK message shown counts.
Proof.
  intros Hchat. apply chat_ok_pool in Hchat as (pool & Hpool & Hok).
  apply format_response_ok_counts in Hok as (Hne & _).
  apply Hne. destruct pool as [|r pool]; [done|].
  apply Forall_cons in Hpool as [[[(qk & d & Hd & _)|(qk & d & Hd & _)] _] _];
    by apply elem_of_nil in Hd.
Qed.

(** X17. An ASCII query without keywords (empty, or made of stopwords and
    single characters) is answered with an [ASK] payload, without reading
    the corpora or the intent table. *)
Theorem chat_without_keywords (stem : string -> string)
    (DOA_DATA HADIS_DATA DOA_DATA' HADIS_DATA' : list item)
    (INTENTS INTENTS' : list (string * intent_data))
    (w : world) (raw_query : string) (lat lng : option string) :
  is_ascii raw_query = true →
  get_keywords stem (normalize raw_query) = [] →
  (∃ message suggestions examples,
     chat stem DOA_DATA HADIS_DATA INTENTS w raw_query lat lng
     = ASK message suggestions examples) ∧
  chat stem DOA_DATA HADIS_DATA INTENTS w raw_query lat lng
  = chat stem DOA_DATA' HADIS_DATA' INTENTS' w raw_query lat lng.
Proof.
  intros _ Hkw. unfold chat. rewrite Hkw.
  destruct (String.eqb _ _); [by split; [eexists _, _, _|]|].
  destruct (bool_decide _); by split; [eexists _, _, _|].
Qed.

Lemma chat_without_keywords_witness :
  is_ascii "Yang  itu DAN" = true ∧
  get_keywords root_stem (normalize "Yang  itu DAN") = [] ∧
  chat root_stem (doa_without_judul :: sample_doa) sample_hadis sample_intents morning
       "Yang  itu DAN" None None
  = chat root_stem [] [] [] morning "Yang  itu DAN" None None.
Proof.
  assert (is_ascii "Yang  itu DAN" = true) as Hascii by reflexivity.
  assert (get_keywords root_stem (normalize "Yang  itu DAN") = []) as Hkw
    by (vm_compute; reflexivity).
  split; [exact Hascii|]. split; [exact Hkw|].
  exact (proj2 (chat_without_keywords root_stem _ _ [] [] _ [] morning
                  "Yang  itu DAN" None None Hascii Hkw)).
Defined.

(** ** Greeting and browsing *)

(** X18. The greeting is chosen by the local hour in the timezone the service
    answered for the coordinates of the request, and by the local hour in
    Asia/Jakarta when a coordinate is missing or the service gave no
    answer: morning from 5 to 10, midday from 11 to 14, afternoon from 15
    to 17, evening for every other hour; when the local hour is not
    available the greeting is the neutral one. *)
Theorem greeting_by_hour (w : world) (lat lng : option string) :
  let greeting := get_time_based_greeting w lat lng in
  (∀ la ln timezone_name,
     lat = Some la → lng = Some ln → fetch_timezone w la ln = Some timezone_name →
     greets (local_hour w timezone_name) greeting) ∧
  (∀ la ln,
     lat = Some la → lng = Some ln → fetch_timezone w la ln = None →
     greets (local_hour w "Asia/Jakarta") greeting) ∧
  (lat = None ∨ lng = None → greets (local_hour w "Asia/Jakarta") greeting).
Proof.
  assert (∀ timezone_name,
    greets (local_hour w timezone_name)
      match local_hour w timezone_name with
      | Some current_hour =>
          if (5 <=? current_hour)%Z && (current_hour <? 11)%Z then "Selamat pagi"
          else if (11 <=? current_hour)%Z && (current_hour <? 15)%Z then "Selamat siang"
          else if (15 <=? current_hour)%Z && (current_hour <? 18)%Z then "Selamat sore"
          else "Selamat malam"
      | None => "Selamat datang"
      end) as Hgreets.
  { intros tz. unfold greets. destruct (local_hour w tz) as [hour|]; [|done].
    destruct (Z.leb_spec 5 hour), (Z.ltb_spec hour 11), (Z.leb_spec 11 hour),
      (Z.ltb_spec hour 15), (Z.leb_spec 15 hour), (Z.ltb_spec hour 18);
      cbn [andb]; repeat split; intros; try lia; try done. }
  intros greeting. subst greeting. unfold get_time_based_greeting.
  split; [|split].
  - intros la ln tz -> -> ->. apply Hgreets.
  - intros la ln -> -> ->. apply Hgreets.
  - intros [->| ->]; [|destruct lat]; apply Hgreets.
Qed.

Lemma greeting_by_hour_witness :
  fetch_timezone evening_in_tokyo "35.68" "139.69" = Some "Asia/Tokyo" ∧
  local_hour evening_in_tokyo "Asia/Tokyo" = Some 19%Z ∧
  local_hour evening_in_tokyo "Asia/Jakarta" = Some 17%Z ∧
  get_time_based_greeting evening_in_tokyo (Some "35.68") (Some "139.69") = "Selamat malam" ∧
  get_time_based_greeting evening_in_tokyo None (Some "139.69") = "Selamat sore".
Proof.
  split; [reflexivity|]. split; [reflexivity|]. split; [reflexivity|]. split.
  - pose proof (proj1 (greeting_by_hour evening_in_tokyo (Some "35.68") (Some "139.69"))
                  "35.68" "139.69" "Asia/Tokyo" eq_refl eq_refl eq_refl) as H.
    apply (proj2 (proj2 (proj2 H))). right. done.
  - pose proof (proj2 (proj2 (greeting_by_hour evening_in_tokyo None (Some "139.69")))
                  (or_introl eq_refl)) as H.
    apply (proj1 (proj2 (proj2 H))). done.
Defined.

(** X19. Whatever a request shows can be found by browsing: the item of every
    result of an [OK] answer is listed, with the same tag, by [browse] for
    the doa or for the hadis category; [browse] answers an error with
    status 400 for any other category. *)
Theorem chat_results_are_browsable (stem : string -> string)
    (DOA_DATA HADIS_DATA : list item) (INTENTS : list (string * intent_data))
    (w : world) (raw_query : string) (lat lng : option string)
    (message : string) (shown : list result) (counts : summary) :
  chat stem DOA_DATA HADIS_DATA INTENTS w raw_query lat lng = OK message shown counts →
  (∀ r, r ∈ shown →
        ∃ e, (e ∈ browse_entries DOA_DATA HADIS_DATA "doa" ∨
              e ∈ browse_entries DOA_DATA HADIS_DATA "hadis") ∧
             data e = data r ∧ score e = 1%Q) ∧
  (∀ category, category ≠ "doa" → category ≠ "hadis" →
               ∃ msg, browse DOA_DATA HADIS_DATA category = BROWSE_ERROR msg 400).
Proof.
  intros (pool & Hpool & Hok)%chat_ok_pool.
  apply format_response_ok_counts in Hok as (_ & -> & _).
  split.
  - intros r Hr%subseteq_take.
    pose proof (ranked_pool_candidates stem DOA_DATA HADIS_DATA pool Hpool) as Hall.
    rewrite Forall_forall in Hall.
    destruct (Hall r Hr) as [[(qk & d & Hd & ->)|(qk & d & Hd & ->)] _].
    + exists {| score := 1; data := with_source_type d "doa" |}.
      split; [left|done]. unfold browse_entries, browse. cbn.
      apply list_elem_of_fmap. by exists d.
    + exists {| score := 1; data := with_source_type d "hadis" |}.
      split; [right|done]. unfold browse_entries, browse. cbn.
      apply list_elem_of_fmap. by exists d.
  - intros category Hd%String.eqb_neq Hh%String.eqb_neq. unfold browse.
    rewrite Hd, Hh. by eexists.
Qed.

Lemma chat_results_are_browsable_witness :
  ∃ message shown counts,
    chat root_stem sample_doa sample_hadis [] morning "makan" None None
    = OK message shown counts ∧
    ∀ r, r ∈ shown →
         ∃ e, (e ∈ browse_entries sample_doa sample_hadis "doa" ∨
               e ∈ browse_entries sample_doa sample_hadis "hadis") ∧
              data e = data r ∧ score e = 1%Q.
Proof.
  destruct sample_chat_ok as (message & shown & counts & Hok).
  exists message, shown, counts. split; [exact Hok|].
  exact (proj1 (chat_results_are_browsable root_stem sample_doa sample_hadis [] morning
                  "makan" None None message shown counts Hok)).
Defined.

(** ** Text functions *)

Lemma all_chars_app (p : ascii -> bool) (a b : string) :
  all_chars p (a +:+ b) = all_chars p a && all_chars p b.
Proof.
  induction a as [|c a IH]; [done|].
  rewrite append_cons. simpl. by rewrite IH, andb_assoc.
Qed.

Lemma concat_empty_cons (x : string) (l : list string) :
  String.concat "" (x :: l) = x +:+ String.concat "" l.
Proof. destruct l; simpl; [by rewrite append_nil_r | done]. Qed.

Lemma split_from_words (cur s : string) :
  all_chars (fun c => negb (isspace c)) cur = true →
  Forall word (split_from cur s) ∧
  String.concat "" (split_from cur s)
  = cur +:+ filter_string (fun c => negb (isspace c)) s.
Proof.
  revert cur. induction s as [|c s IH]; intros cur Hcur; cbn [split_from filter_string].
  - destruct cur as [|d cur]; [by split|].
    split; [by repeat constructor | by rewrite append_nil_r].
  - destruct (isspace c) eqn:Hc; cbn [negb].
    + destruct (IH "" eq_refl) as [Hw Hcat]. destruct cur as [|d cur]; [by split|].
      split; [by repeat constructor|].
      by rewrite concat_empty_cons, Hcat.
    + destruct (IH (cur +:+ String c "")) as [Hw Hcat].
      { rewrite all_chars_app, Hcur. simpl. by rewrite Hc. }
      split; [done|]. by rewrite Hcat, append_assoc.
Qed.

(** [split] cuts a text into words: every token is non-empty and free of
    whitespace, and the tokens hold, in order, exactly the characters of
    the text that are not whitespace. *)
Lemma split_gives_words (s : string) :
  Forall word (split s) ∧
  String.concat "" (split s) = filter_string (fun c => negb (isspace c)) s.
Proof. exact (split_from_words "" s eq_refl). Qed.

Lemma split_from_word (cur w rest : string) :
  all_chars (fun c => negb (isspace c)) w = true →
  split_from cur (w +:+ rest) = split_from (cur +:+ w) rest.
Proof.
  revert cur. induction w as [|c w IH]; intros cur Hw.
  - by rewrite append_nil, append_nil_r.
  - simpl in Hw. apply andb_true_iff in Hw as [Hc%negb_true_iff Hw].
    rewrite append_cons. cbn [split_from]. rewrite Hc, IH by done.
    by rewrite append_assoc.
Qed.

Lemma join_cons (w w' : string) (ws : list string) :
  join (w :: w' :: ws) = w +:+ " " +:+ join (w' :: ws).
Proof. reflexivity. Qed.

Lemma split_join_words (ws : list string) :
  Forall word ws → split (join ws) = ws.
Proof.
  induction 1 as [|w ws [Hne Hw] Hws IH]; [done|].
  unfold split in *. destruct ws as [|w' ws].
  - change (join [w]) with w. rewrite <- (append_nil_r w) at 1.
    rewrite split_from_word, append_nil by done. by destruct w.
  - rewrite join_cons, split_from_word, append_nil by done.
    rewrite append_cons, append_nil. cbn [split_from].
    change (isspace " ") with true. cbn iota. rewrite IH. by destruct w.
Qed.

(** Joining words with single spaces and splitting the result gives the
    words back. *)
Lemma split_join (ws : list string) :
  Forall word ws → split (join ws) = ws.
Proof. apply split_join_words. Qed.

Lemma split_join_witness :
  Forall word ["doa"; "sebelum"; "makan"] ∧
  split (join ["doa"; "sebelum"; "makan"]) = ["doa"; "sebelum"; "makan"].
Proof.
  assert (Forall word ["doa"; "sebelum"; "makan"]) as Hws
    by (repeat constructor; discriminate).
  split; [exact Hws|]. exact (split_join _ Hws).
Defined.

(** X20. The keywords extracted from a text survive joining and splitting: the
    joined query of the phrase bonus holds exactly the keywords. *)
Theorem split_join_keywords (stem : string -> string) (text : string) :
  Forall word (get_keywords stem text) ∧
  split (join (get_keywords stem text)) = get_keywords stem text.
Proof.
  assert (Forall word (get_keywords stem text)) as Hws.
  { unfold get_keywords. apply Forall_forall. intros w [_ Hw]%list_elem_of_filter.
    destruct (split_from_words "" (preprocess stem text) eq_refl) as [Hall _].
    rewrite Forall_forall in Hall. by apply Hall. }
  split; [exact Hws | by apply split_join_words].
Qed.

Lemma isspace_lower_char (c : ascii) : isspace (lower_char c) = isspace c.
Proof. destruct c as [[] [] [] [] [] [] [] []]; reflexivity. Qed.

Lemma lower_char_idemp (c : ascii) : lower_char (lower_char c) = lower_char c.
Proof. destruct c as [[] [] [] [] [] [] [] []]; reflexivity. Qed.

Lemma rev_app_append (s acc : string) : String.rev_app s acc = String.rev s +:+ acc.
Proof.
  unfold String.rev. revert acc. induction s as [|c s IH]; intros acc; [done|].
  cbn [String.rev_app]. rewrite (IH (String c acc)), (IH (String c "")).
  by rewrite append_assoc.
Qed.

Lemma rev_cons (c : ascii) (s : string) :
  String.rev (String c s) = String.rev s +:+ String c "".
Proof. unfold String.rev at 1. cbn [String.rev_app]. apply rev_app_append. Qed.

Lemma rev_append (a b : string) : String.rev (a +:+ b) = String.rev b +:+ String.rev a.
Proof.
  induction a as [|c a IH]; [by rewrite append_nil, append_nil_r|].
  by rewrite append_cons, !rev_cons, IH, append_assoc.
Qed.

Lemma rev_involutive (s : string) : String.rev (String.rev s) = s.
Proof.
  induction s as [|c s IH]; [done|]. by rewrite rev_cons, rev_append, IH.
Qed.

Lemma all_chars_rev (p : ascii -> bool) (s : string) :
  all_chars p (String.rev s) = all_chars p s.
Proof.
  induction s as [|c s IH]; [done|].
  rewrite rev_cons, all_chars_app, IH. simpl. by rewrite andb_true_r, andb_comm.
Qed.

Lemma map_string_append (f : ascii -> ascii) (a b : string) :
  map_string f (a +:+ b) = map_string f a +:+ map_string f b.
Proof. induction a as [|c a IH]; [done|]. rewrite !append_cons. simpl. by rewrite IH. Qed.

Lemma map_string_rev (f : ascii -> ascii) (s : string) :
  map_string f (String.rev s) = String.rev (map_string f s).
Proof.
  induction s as [|c s IH]; [done|].
  simpl. by rewrite !rev_cons, map_string_append, IH.
Qed.

Lemma lower_idemp (s : string) : lower (lower s) = lower s.
Proof.
  unfold lower. induction s as [|c s IH]; [done|]. simpl. by rewrite lower_char_idemp, IH.
Qed.

Lemma all_space_lower (s : string) : all_chars isspace (lower s) = all_chars isspace s.
Proof.
  unfold lower. induction s as [|c s IH]; [done|]. simpl. by rewrite isspace_lower_char, IH.
Qed.

Lemma lstrip_lower (s : string) : lstrip (lower s) = lower (lstrip s).
Proof.
  unfold lower. induction s as [|c s IH]; [done|]. simpl.
  rewrite isspace_lower_char. by destruct (isspace c).
Qed.

Lemma strip_lower (s : string) : strip (lower s) = lower (strip s).
Proof.
  unfold strip, rstrip. rewrite lstrip_lower. unfold lower.
  rewrite <- map_string_rev. fold (lower (String.rev (lstrip s))).
  rewrite lstrip_lower. unfold lower. by rewrite map_string_rev.
Qed.

Lemma collapse_lower (b : bool) (s : string) :
  collapse_spaces b (lower s) = lower (collapse_spaces b s).
Proof.
  unfold lower. revert b. induction s as [|c s IH]; intros b; [done|]. simpl.
  rewrite isspace_lower_char. destruct (isspace c) eqn:Hc.
  - destruct b; [apply IH | simpl; by rewrite IH].
  - simpl. by rewrite IH.
Qed.

Lemma lstrip_whitespace (s : string) : lstrip s = "" ↔ whitespace_only s.
Proof.
  unfold whitespace_only. induction s as [|c s IH]; [done|]. simpl.
  destruct (isspace c); [exact IH | done].
Qed.

Lemma lstrip_starts_clean (s : string) : starts_clean (lstrip s) = true.
Proof.
  induction s as [|c s IH]; [done|]. simpl.
  destruct (isspace c) eqn:Hc; [exact IH | simpl; by rewrite Hc].
Qed.

Lemma lstrip_clean (s : string) : starts_clean s = true → lstrip s = s.
Proof. destruct s as [|c s]; [done|]. simpl. by intros ->%negb_true_iff. Qed.

Lemma lstrip_decompose (s : string) :
  ∃ sp, s = sp +:+ lstrip s ∧ whitespace_only sp.
Proof.
  induction s as [|c s (sp & Hs & Hsp)]; [by exists ""|]. simpl.
  destruct (isspace c) eqn:Hc; [|by exists ""].
  exists (String c sp). rewrite append_cons, <- Hs. split; [done|].
  unfold whitespace_only in *. simpl. by rewrite Hc.
Qed.

Lemma rev_nil_inv (s : string) : String.rev s = "" → s = "".
Proof. destruct s as [|c s]; [done|]. rewrite rev_cons. by destruct (String.rev s). Qed.

Lemma starts_clean_whitespace (s : string) :
  starts_clean s = true → whitespace_only s → s = "".
Proof.
  destruct s as [|c s]; [done|]. unfold whitespace_only. simpl.
  intros Hc%negb_true_iff. by rewrite Hc.
Qed.

Lemma strip_whitespace (s : string) : strip s = "" ↔ whitespace_only s.
Proof.
  unfold strip, rstrip. split.
  - intros H%rev_nil_inv%lstrip_whitespace. unfold whitespace_only in H.
    rewrite all_chars_rev in H.
    apply lstrip_whitespace, starts_clean_whitespace; [apply lstrip_starts_clean | done].
  - intros H%lstrip_whitespace. by rewrite H.
Qed.

Lemma collapse_nil_inv (s : string) : collapse_spaces false s = "" → s = "".
Proof. destruct s as [|c s]; [done|]. simpl. by destruct (isspace c). Qed.

Lemma normalize_empty (s : string) : normalize s = "" ↔ whitespace_only s.
Proof.
  unfold normalize. split.
  - intros H%collapse_nil_inv. rewrite strip_lower in H.
    assert (strip s = "") as Hs by (by destruct (strip s)).
    by apply strip_whitespace.
  - intros H. apply strip_whitespace in H. by rewrite strip_lower, H.
Qed.

(** X21. An ASCII query made of whitespace only, the empty query included,
    is answered with the request for input, whatever the corpora, the
    intent table and the clock are; every other ASCII query gets another
    answer. *)
Theorem chat_asks_for_input (stem : string -> string)
    (DOA_DATA HADIS_DATA : list item) (INTENTS : list (string * intent_data))
    (w : world) (raw_query : string) (lat lng : option string) :
  is_ascii raw_query = true →
  (whitespace_only raw_query ↔
   chat stem DOA_DATA HADIS_DATA INTENTS w raw_query lat lng
   = ASK "Silakan ketik kebutuhan doa atau hadis üòä" None
         ["doa sebelum makan"; "hadis tentang sabar"; "doa naik kendaraan"]).
Proof.
  intros _. rewrite <- normalize_empty. unfold chat.
  destruct (String.eqb_spec (normalize raw_query) "") as [Hq|Hq]; [done|].
  split; [done|]. intros H. exfalso.
  destruct (bool_decide _); [discriminate|].
  destruct (get_keywords stem (normalize raw_query)); [discriminate|].
  destruct (search_and_respond _ _ _ _ _ _) as [response|e] eqn:Hs; [|discriminate].
  subst response. apply search_and_respond_inv in Hs as [pool Hs].
  destruct (sorted_desc (deduplicate_by_id pool)); discriminate.
Qed.

Lemma chat_asks_for_input_witness :
  is_ascii ("  " +:+ nl) = true ∧
  chat root_stem sample_doa sample_hadis sample_intents morning ("  " +:+ nl) None None
  = ASK "Silakan ketik kebutuhan doa atau hadis üòä" None
        ["doa sebelum makan"; "hadis tentang sabar"; "doa naik kendaraan"].
Proof.
  assert (is_ascii ("  " +:+ nl) = true) as Hascii by reflexivity.
  split; [exact Hascii|].
  apply (proj1 (chat_asks_for_input root_stem sample_doa sample_hadis sample_intents
                  morning ("  " +:+ nl) None None Hascii)).
  reflexivity.
Defined.

Lemma collapse_idemp (s : string) :
  collapse_spaces false (collapse_spaces false s) = collapse_spaces false s ∧
  collapse_spaces true (collapse_spaces true s) = collapse_spaces true s.
Proof.
  induction s as [|c s [IHf IHt]]; [done|]. simpl.
  destruct (isspace c) eqn:Hc.
  - split; [|exact IHt]. simpl. change (isspace " ") with true. cbn iota.
    by rewrite IHt.
  - simpl. rewrite Hc. by rewrite IHf.
Qed.

Lemma starts_clean_collapse (s : string) :
  starts_clean s = true → starts_clean (collapse_spaces false s) = true.
Proof.
  destruct s as [|c s]; [done|]. simpl. intros Hc.
  apply negb_true_iff in Hc as Hc'. rewrite Hc'. simpl. by rewrite Hc'.
Qed.

Lemma starts_clean_app (a b : string) :
  a ≠ "" → starts_clean (a +:+ b) = starts_clean a.
Proof. by destruct a. Qed.

Lemma ends_clean_rev (s : string) : ends_clean s = starts_clean (String.rev s).
Proof.
  induction s as [|c s IH]; [done|]. rewrite rev_cons.
  destruct s as [|d s]; [done|].
  cbn [ends_clean]. cbn [ends_clean] in IH. rewrite IH.
  symmetry. apply starts_clean_app. intros H%rev_nil_inv. discriminate.
Qed.

Lemma ends_clean_not_whitespace (s : string) :
  s ≠ "" → ends_clean s = true → all_chars isspace s = false.
Proof.
  induction s as [|c s IH]; [done|]. intros _ H.
  destruct s as [|d s].
  - simpl in *. apply negb_true_iff in H. by rewrite H.
  - cbn [ends_clean] in H.
    change (all_chars isspace (String c (String d s)))
      with (isspace c && all_chars isspace (String d s)).
    rewrite IH by done. apply andb_false_r.
Qed.

Lemma collapse_not_nil (b : bool) (s : string) :
  all_chars isspace s = false → collapse_spaces b s ≠ "".
Proof.
  revert b. induction s as [|c s IH]; intros b; [done|]. simpl.
  destruct (isspace c) eqn:Hc; [|done]. simpl. intros H.
  destruct b; [by apply IH | done].
Qed.

Lemma ends_clean_cons (c : ascii) (s : string) :
  s ≠ "" → ends_clean (String c s) = ends_clean s.
Proof. by destruct s. Qed.

Lemma collapse_cons (b : bool) (c : ascii) (s : string) :
  collapse_spaces b (String c s)
  = if isspace c
    then if b then collapse_spaces true s
         else String " "%char (collapse_spaces true s)
    else String c (collapse_spaces false s).
Proof. reflexivity. Qed.

Lemma ends_clean_collapse (b : bool) (s : string) :
  ends_clean s = true → ends_clean (collapse_spaces b s) = true.
Proof.
  revert b. induction s as [|c s IH]; intros b H; [done|].
  destruct (decide (s = "")) as [->|Hs].
  - simpl in *. apply negb_true_iff in H as H'. rewrite H'. simpl. by rewrite H'.
  - rewrite ends_clean_cons in H by done.
    assert (∀ b', collapse_spaces b' s ≠ "") as Hne.
    { intros b'. by apply collapse_not_nil, ends_clean_not_whitespace. }
    rewrite collapse_cons. destruct (isspace c).
    + destruct b; [by apply IH|].
      rewrite ends_clean_cons by apply Hne. by apply IH.
    + rewrite ends_clean_cons by apply Hne. by apply IH.
Qed.

Lemma strip_clean (s : string) :
  starts_clean s = true → ends_clean s = true → strip s = s.
Proof.
  intros Hs He. unfold strip, rstrip. rewrite (lstrip_clean s Hs).
  rewrite ends_clean_rev in He. by rewrite (lstrip_clean _ He), rev_involutive.
Qed.

Lemma strip_ends (s : string) :
  starts_clean (strip s) = true ∧ ends_clean (strip s) = true.
Proof.
  unfold strip, rstrip. set (y := lstrip s).
  assert (starts_clean y = true) as Hy by apply lstrip_starts_clean.
  set (z := lstrip (String.rev y)).
  assert (starts_clean z = true) as Hz by apply lstrip_starts_clean.
  split; [|by rewrite ends_clean_rev, rev_involutive].
  destruct (lstrip_decompose (String.rev y)) as (sp & Hrev & Hsp). fold z in Hrev.
  apply (f_equal String.rev) in Hrev. rewrite rev_involutive, rev_append in Hrev.
  destruct (decide (String.rev z = "")) as [->|Hne]; [done|].
  by rewrite <- (starts_clean_app _ (String.rev sp) Hne), <- Hrev.
Qed.

Lemma normalize_idemp (s : string) : normalize (normalize s) = normalize s.
Proof.
  unfold normalize at 1.
  assert (lower (normalize s) = normalize s) as ->.
  { unfold normalize. by rewrite <- collapse_lower, <- strip_lower, lower_idemp. }
  destruct (strip_ends (lower s)) as [Hs He].
  rewrite strip_clean.
  - unfold normalize. apply collapse_idemp.
  - unfold normalize. by apply starts_clean_collapse.
  - unfold normalize. by apply ends_clean_collapse.
Qed.

Lemma lower_char_ascii (c : ascii) :
  (code c <? 128) = true → (code (lower_char c) <? 128) = true.
Proof. destruct c as [[] [] [] [] [] [] [] []]; vm_compute; done. Qed.

Lemma lower_ascii (s : string) : is_ascii s = true → is_ascii (lower s) = true.
Proof.
  unfold is_ascii. induction s as [|c s IH]; [done|]. cbn [lower map_string all_chars].
  intros [Hc Hs]%andb_true_iff. apply andb_true_iff.
  split; [by apply lower_char_ascii | by apply IH].
Qed.

Lemma all_chars_lstrip (p : ascii -> bool) (s : string) :
  all_chars p s = true → all_chars p (lstrip s) = true.
Proof.
  induction s as [|c s IH]; [done|]. cbn [lstrip all_chars].
  intros [Hc Hs]%andb_true_iff. destruct (isspace c); [by apply IH|].
  cbn [all_chars]. by rewrite Hc, Hs.
Qed.

Lemma all_chars_strip (p : ascii -> bool) (s : string) :
  all_chars p s = true → all_chars p (strip s) = true.
Proof.
  intros H. unfold strip, rstrip. rewrite all_chars_rev.
  apply all_chars_lstrip. rewrite all_chars_rev. by apply all_chars_lstrip.
Qed.

Lemma all_chars_collapse (p : ascii -> bool) (b : bool) (s : string) :
  p " "%char = true → all_chars p s = true → all_chars p (collapse_spaces b s) = true.
Proof.
  intros Hsp. revert b. induction s as [|c s IH]; intros b; [done|].
  rewrite collapse_cons. cbn [all_chars]. intros [Hc Hs]%andb_true_iff.
  destruct (isspace c).
  - destruct b; [by apply IH|]. cbn [all_chars]. rewrite Hsp. by apply IH.
  - cbn [all_chars]. rewrite Hc. by apply IH.
Qed.

Lemma normalize_ascii (s : string) : is_ascii s = true → is_ascii (normalize s) = true.
Proof.
  intros H. unfold normalize, is_ascii.
  apply all_chars_collapse; [done|]. apply all_chars_strip. by apply lower_ascii.
Qed.

(** X22. Normalising an ASCII query gives an ASCII text, and normalising it
    twice is the same as normalising it once, so the handler answers a
    query and its normalised form alike. *)
Theorem normalize_idempotent (stem : string -> string)
    (DOA_DATA HADIS_DATA : list item) (INTENTS : list (string * intent_data))
    (w : world) (raw_query : string) (lat lng : option string) :
  is_ascii raw_query = true →
  is_ascii (normalize raw_query) = true ∧
  normalize (normalize raw_query) = normalize raw_query ∧
  chat stem DOA_DATA HADIS_DATA INTENTS w (normalize raw_query) lat lng
  = chat stem DOA_DATA HADIS_DATA INTENTS w raw_query lat lng.
Proof.
  intros Hascii. split; [by apply normalize_ascii|].
  split; [apply normalize_idemp|]. unfold chat. by rewrite normalize_idemp.
Qed.

Lemma normalize_idempotent_witness :
  is_ascii "  Doa   Sebelum  MAKAN " = true ∧
  normalize "  Doa   Sebelum  MAKAN " = "doa sebelum makan" ∧
  normalize (normalize "  Doa   Sebelum  MAKAN ") = normalize "  Doa   Sebelum  MAKAN ".
Proof.
  assert (is_ascii "  Doa   Sebelum  MAKAN " = true) as Hascii by reflexivity.
  split; [exact Hascii|]. split; [reflexivity|].
  exact (proj1 (proj2 (normalize_idempotent root_stem sample_doa sample_hadis
                         sample_intents morning "  Doa   Sebelum  MAKAN " None None
                         Hascii))).
Defined.

Lemma starts_clean_collapse_true (s : string) :
  starts_clean (collapse_spaces true s) = true.
Proof.
  induction s as [|c s IH]; [done|]. simpl.
  destruct (isspace c) eqn:Hc; [exact IH | simpl; by rewrite Hc].
Qed.

Lemma single_spaced_collapse (b : bool) (s : string) :
  single_spaced (collapse_spaces b s) = true.
Proof.
  revert b. induction s as [|c s IH]; intros b; [done|]. rewrite collapse_cons.
  destruct (isspace c) eqn:Hc.
  - destruct b; [apply IH|]. cbn [single_spaced]. change (isspace " ") with true.
    cbn iota. by rewrite starts_clean_collapse_true, IH.
  - cbn [single_spaced]. by rewrite Hc, IH.
Qed.

(** X23. The normalised form of an ASCII query is an ASCII text in lower
    case, has no whitespace at either end, and has single spaces as its
    only whitespace. *)
Theorem normalize_shape (s : string) :
  is_ascii s = true →
  is_ascii (normalize s) = true ∧
  lower (normalize s) = normalize s ∧
  starts_clean (normalize s) = true ∧
  ends_clean (normalize s) = true ∧
  single_spaced (normalize s) = true.
Proof.
  intros Hascii. split; [by apply normalize_ascii|].
  destruct (strip_ends (lower s)) as [Hs He]. unfold normalize.
  split; [by rewrite <- collapse_lower, <- strip_lower, lower_idemp|].
  split; [by apply starts_clean_collapse|].
  split; [by apply ends_clean_collapse | apply single_spaced_collapse].
Qed.

Lemma normalize_shape_witness :
  is_ascii "  Doa   Sebelum  MAKAN " = true ∧
  lower (normalize "  Doa   Sebelum  MAKAN ") = normalize "  Doa   Sebelum  MAKAN " ∧
  single_spaced (normalize "  Doa   Sebelum  MAKAN ") = true.
Proof.
  assert (is_ascii "  Doa   Sebelum  MAKAN " = true) as Hascii by reflexivity.
  split; [exact Hascii|].
  pose proof (normalize_shape "  Doa   Sebelum  MAKAN " Hascii) as (_ & Hl & _ & _ & Hs).
  by split.
Defined.

(** X12. Deduplicating and re-sorting a pool that is already in non-increasing
    order of score, with non-empty and pairwise different identifiers,
    leaves it as it is. *)
Theorem rank_of_ranked_pool (pool : list result) :
  Forall has_id pool →
  NoDup (map (fun r => id (data r)) pool) →
  non_increasing pool →
  sorted_desc (deduplicate_by_id pool) = pool.
Proof.
  intros Hall Hnd Hs.
  assert (deduplicate_by_id pool = pool) as ->.
  { unfold deduplicate_by_id. rewrite dedup_loop_from, app_nil_l.
    apply dedup_from_distinct; [|done].
    eapply Forall_impl; [exact Hall|]. intros r (i & Hi & Ht). exists i.
    by repeat split. }
  apply strongly_sorted_non_increasing in Hs.
  induction Hs as [|r l Hl IH Hall' ]; [done|].
  apply Forall_cons in Hall as [_ Hall]. rewrite fmap_cons in Hnd.
  apply NoDup_cons in Hnd as [_ Hnd].
  simpl. rewrite IH by done. by apply insert_desc_head.
Qed.

Lemma rank_of_ranked_pool_witness :
  Forall has_id sample_results ∧
  NoDup (map (fun r => id (data r)) sample_results) ∧
  non_increasing sample_results ∧
  sorted_desc (deduplicate_by_id sample_results) = sample_results.
Proof.
  assert (Forall has_id sample_results) as Hall.
  { repeat constructor; eexists; split; reflexivity. }
  assert (NoDup (map (fun r => id (data r)) sample_results)) as Hnd.
  { apply (bool_decide_unpack _). vm_compute. exact I. }
  assert (non_increasing sample_results) as Hs.
  { apply strongly_sorted_non_increasing. unfold sample_results.
    repeat constructor; unfold score_ge; simpl; unfold Qle; simpl; lia. }
  split; [exact Hall|]. split; [exact Hnd|]. split; [exact Hs|].
  exact (rank_of_ranked_pool sample_results Hall Hnd Hs).
Defined.
